(** * tw-nhi-icc: the client of the TW NHI IC Card Service

    A shallow embedding of [src/lib.ts] (and of [errors.js]) together with
    the properties of the timed request path, of the card-list reshaping
    and of the auto-reconnecting WebSocket channel.

    Conventions of the embedding.
    - A promise is modelled by its settlement, [Resolved v] or [Rejected e];
      a [try]/[catch] is a [match] on it.
    - Millisecond quantities (timeouts, clock readings, epoch timestamps)
      are integers of [Z]; the WebSocket interval is a rational of [Q], so
      that [Math.floor] does something.  [NaN] and the infinities are not
      modelled.
    - Strings built by template literals are kept structured ([Message]),
      so that what a message carries can be read off its constructor.
    - The platform ([fetch], [WebSocket], the two user hooks) is the
      environment: its answers are arguments of the functions or payloads
      of the events. *)

From Stdlib Require Import ZArith QArith Qround Lia Bool.
From stdpp Require Import base option list strings.

Local Open Scope Z_scope.

(** ** URLs *)

Record URL := mkURL {
  protocol : string;
  host : string;
  pathname : string;
  (** [searchParams]; a value is kept as the number whose [toString()] is
      appended. *)
  searchParams : list (string * Z);
}.

(** [new URL(path, base)] for an absolute path. *)
Definition new_URL (path : string) (base : URL) : URL :=
  {| protocol := protocol base; host := host base;
     pathname := path; searchParams := [] |}.

Definition set_protocol (p : string) (u : URL) : URL :=
  {| protocol := p; host := host u;
     pathname := pathname u; searchParams := searchParams u |}.

(** [url.searchParams.append(key, value.toString())] *)
Definition searchParams_append (key : string) (value : Z) (u : URL) : URL :=
  {| protocol := protocol u; host := host u; pathname := pathname u;
     searchParams := searchParams u ++ [(key, value)] |}.

(** ** Error taxonomy ([errors.js]) and thrown values *)

(** The text of an error, as the program builds it. *)
Inductive Message :=
  | Literal (s : string)
  (** [String(v)] of a value with the given [name] and [message] *)
  | Stringified (name message : string)
  (** [`status code = ${status}, body = ${JSON.stringify(text)}`] *)
  | StatusAndBody (status : Z) (text : string)
  (** [`status code = ${status}, but cannot get the body`] *)
  | StatusNoBody (status : Z)
  (** [`Cannot connect to ${url.toString()}`] *)
  | CannotConnect (url : URL).

(** Whatever a [catch] clause or a rejection handler can receive. *)
Inductive Thrown :=
  | DOMException (name message : string)
  (** an object whose [name] and [message] are strings and which is no
      [DOMException]; [is_Error] tells whether it is [instanceof Error] *)
  | ErrorLike (is_Error : bool) (name message : string)
  (** any other value *)
  | OtherValue (description : string)
  (** [new Error(m)] *)
  | Error (m : Message)
  | NetworkError (m : Message)
  | TimeoutError (m : Message).

Definition instanceof_DOMException (e : Thrown) : bool :=
  match e with DOMException _ _ => true | _ => false end.

(** [e instanceof NetworkError]: [TimeoutError] extends [NetworkError]. *)
Definition instanceof_NetworkError (e : Thrown) : bool :=
  match e with NetworkError _ | TimeoutError _ => true | _ => false end.

Definition instanceof_TimeoutError (e : Thrown) : bool :=
  match e with TimeoutError _ => true | _ => false end.

(** [typeof e.name === "string" && typeof e.message === "string"] *)
Definition has_name_and_message (e : Thrown) : bool :=
  match e with OtherValue _ => false | _ => true end.

Definition message_of (e : Thrown) : Message :=
  match e with
  | DOMException _ m | ErrorLike _ _ m => Literal m
  | OtherValue d => Literal d
  | Error m | NetworkError m | TimeoutError m => m
  end.

(** [new NetworkError(error)]: the message of an [Error], the string
    conversion of anything else. *)
Definition new_NetworkError (error : Thrown) : Thrown :=
  match error with
  | ErrorLike false n m => NetworkError (Stringified n m)
  | _ => NetworkError (message_of error)
  end.

(** The settlement of a promise. *)
Inductive Settled (A : Type) :=
  | Resolved (v : A)
  | Rejected (e : Thrown).
Arguments Resolved {A} v.
Arguments Rejected {A} e.

(** ** Wire and domain records *)

Inductive Sex := M | F.

Record ServiceNHICard := {
  reader_name : string;
  card_no : string;
  full_name : string;
  id_no : string;
  birth_date : string;
  birth_date_timestamp : Z;
  sex : Sex;
  issue_date : string;
  issue_date_timestamp : Z;
}.

(** [new Date(value)]: the point in time [value] milliseconds after the
    epoch. *)
Inductive Date := new_Date (value : Z).


Record NHICard := {
  readerName : string;
  cardNo : string;
  fullName : string;
  idNo : string;
  birthday : Date;
  card_sex : Sex;
  issueDate : Date;
}.

Record Version := {
  major : Z;
  minor : Z;
  patch : Z;
  pre : string;
  text : string;
}.

Definition mapCardList (cards : list ServiceNHICard) : list NHICard :=
  map (fun e =>
         {| readerName := reader_name e;
            cardNo := card_no e;
            fullName := full_name e;
            idNo := id_no e;
            birthday := new_Date (birth_date_timestamp e);
            card_sex := sex e;
            issueDate := new_Date (issue_date_timestamp e) |})
      cards.

(** ** The timed request path *)

Inductive AbortSignal :=
  | AbortSignal_timeout (ms : Z)
  | CallerSignal (id : nat).

(** [RequestInit & { timeout?: number }], the two members the code reads. *)
Record RequestInit := {
  signal : option AbortSignal;
  timeout : option Z;
}.

(** What reading the body of a response gives: its text, or a failure. *)
Inductive BodyRead :=
  | BodyText (s : string)
  | BodyFails (e : Thrown).

Record Response := {
  status : Z;
  body : BodyRead;
}.

Definition response_text (r : Response) : Settled string :=
  match body r with
  | BodyText s => Resolved s
  | BodyFails e => Rejected e
  end.

Section Fetch.

(** The type the caller expects, and [JSON.parse] at that type. *)
Context {T : Type}.
Variable JSON_parse : string -> option T.
(** The platform's [fetch]. *)
Variable fetch : URL -> RequestInit -> Settled Response.

Definition response_json (r : Response) : Settled T :=
  match body r with
  | BodyText s =>
      match JSON_parse s with
      | Some v => Resolved v
      | None => Rejected (ErrorLike true "SyntaxError" "Unexpected token")
      end
  | BodyFails e => Rejected e
  end.

Definition fetchWithTimeout (url : URL) (config : RequestInit) : Settled T :=
  let config :=
    match signal config, timeout config with
    | None, Some ms =>
        if 0 <=? ms
        then {| signal := Some (AbortSignal_timeout ms); timeout := Some ms |}
        else config
    | _, _ => config
    end in
  match fetch url config with
  | Rejected error =>
      if instanceof_DOMException error
      then Rejected (TimeoutError (Literal "request timeout"))
      else if has_name_and_message error
      then Rejected (new_NetworkError error)
      else Rejected error
  | Resolved response =>
      (* [skipCatch] at the moment the [try] block is left, and how it
         is left *)
      let '(skipCatch, attempt) :=
        if status response =? 200
        then (false, response_json response)
        else (true,
              match response_text response with
              | Resolved txt =>
                  Rejected (Error (StatusAndBody (status response) txt))
              | Rejected e => Rejected e
              end) in
      match attempt with
      | Resolved v => Resolved v
      | Rejected error =>
          if (skipCatch : bool) then Rejected error
          else if instanceof_DOMException error
          then Rejected (TimeoutError (Literal "body timeout"))
          else Rejected (Error (StatusNoBody (status response)))
      end
  end.

End Fetch.

(** *** The platform's [fetch], for one request

    The remote end either never answers the connection ([Unreachable]: the
    transport gives up after [fails_after] ms with a [TypeError]) or sends
    a status line after [headers_after] ms and has delivered the whole body
    [body_after] ms later.  A timeout signal of [ms] milliseconds aborts,
    with a [DOMException], whatever has not completed before the deadline:
    the deadline wins a tie, as a timer of [0] ms does against any
    network round trip. *)

Inductive Endpoint :=
  | Unreachable (fails_after : N) (message : string)
  | Reachable (headers_after : N) (status : Z) (body_after : N) (text : string).

Definition deadline (config : RequestInit) : option Z :=
  match signal config with
  | Some (AbortSignal_timeout ms) => Some ms
  | _ => None
  end.

(** Whether the deadline has passed when something completes at [t]. *)
Definition elapsed_by (d : option Z) (t : N) : bool :=
  match d with
  | Some ms => ms <=? Z.of_N t
  | None => false
  end.

Definition timeout_abort : Thrown :=
  DOMException "TimeoutError" "The operation was aborted due to timeout".

Definition platform_fetch (remote : Endpoint) (url : URL) (config : RequestInit)
  : Settled Response :=
  let d := deadline config in
  match remote with
  | Unreachable t msg =>
      if elapsed_by d t then Rejected timeout_abort
      else Rejected (ErrorLike true "TypeError" msg)
  | Reachable th st tb txt =>
      if elapsed_by d th then Rejected timeout_abort
      else Resolved {| status := st;
                       body := if elapsed_by d (th + tb)
                               then BodyFails timeout_abort
                               else BodyText txt |}
  end.

(** ** The service object *)

(** A registered hook; what it does when called is the environment's. *)
Definition Hook := nat.

Record TWNHIICCService := {
  urlPrefix : URL;
  apiGetCardList : URL;
  apiGetVersion : URL;
  apiWebsocket : URL;
  (** the socket held, by its identity; [None] is [null] *)
  webSocket : option nat;
  webSocketInterval : option Z;
  onWebSocketRetry : option Hook;
  onWebSocketUpdate : option Hook;
}.

Definition default_urlPrefix : URL :=
  {| protocol := "http:"; host := "127.0.0.1:12345";
     pathname := "/"; searchParams := [] |}.

Definition constructor (urlPrefix : option URL) : TWNHIICCService :=
  let urlPrefix := default default_urlPrefix urlPrefix in
  let apiWebsocket := new_URL "/ws" urlPrefix in
  let apiWebsocket :=
    if String.eqb (protocol apiWebsocket) "http:"
    then set_protocol "ws:" apiWebsocket
    else if String.eqb (protocol apiWebsocket) "https:"
    then set_protocol "wss:" apiWebsocket
    else apiWebsocket in
  {| urlPrefix := urlPrefix;
     apiGetCardList := new_URL "/" urlPrefix;
     apiGetVersion := new_URL "/version" urlPrefix;
     apiWebsocket := apiWebsocket;
     webSocket := None;
     webSocketInterval := None;
     onWebSocketRetry := None;
     onWebSocketUpdate := None |}.

Section Queries.

Variable parse_version : string -> option Version.
Variable parse_cards : string -> option (list ServiceNHICard).
Variable fetch : URL -> RequestInit -> Settled Response.

(** [getVersion(timeout = 5000)] *)
Definition getVersion (this : TWNHIICCService) (timeout : option Z)
  : Settled Version :=
  let timeout := default 5000 timeout in
  fetchWithTimeout parse_version fetch (apiGetVersion this)
    {| signal := None; timeout := Some timeout |}.

(** [getCardList(timeout = 15000)] *)
Definition getCardList (this : TWNHIICCService) (timeout : option Z)
  : Settled (list NHICard) :=
  let timeout := default 15000 timeout in
  match fetchWithTimeout parse_cards fetch (apiGetCardList this)
          {| signal := None; timeout := Some timeout |} with
  | Resolved cards => Resolved (mapCardList cards)
  | Rejected e => Rejected e
  end.

End Queries.

(** ** The live update channel

    The channel is event driven.  Everything that outlives one run of the
    program's code is kept in a [World]: the service object, the sockets
    the program has constructed (the platform's side of them included),
    the calls of [retry] with the point where each is suspended, the clock
    and what the program has output so far.  One [Event] is one run to
    completion: a call of a method by the owner of the service, or the
    platform delivering a socket event, a timer or the settlement of a
    hook. *)

Definition RETRY_INTERVAL : Z := 1000.

Inductive ReadyState := CONNECTING | OPEN | CLOSING | CLOSED.

(** The closures installed on a socket.  They capture nothing but [this]
    (and, for the first one, the promise of the call), so a tag stands for
    them. *)
Inductive Handlers :=
  (** by the executor of the promise of [openWebSocket]:
      [onopen] installs the live handlers and resolves, [onerror] rejects *)
  | OpeningHandlers
  (** by [retry] on [newWebSocket]: [onopen] installs the live handlers
      and the socket, [onerror] calls [retry] *)
  | ReconnectingHandlers
  (** [onerror = null], [onclose = onclose], [onmessage = onmessage] *)
  | LiveHandlers.

(** Bookkeeping for the spacing of reconnections (never read by the
    program): a reconnection attempt is the call of [retry] that made it,
    by its recorded start [t], and the clock when the socket was
    constructed. *)
Record Attempt := {
  start : Z;
  construction : Z;
}.

Record Reconnect := {
  (** the attempt before this one in the same sequence, if any *)
  previous : option Attempt;
  current : Attempt;
}.

Record WebSocket := {
  ws_url : URL;
  readyState : ReadyState;
  handlers : Handlers;
  (** bookkeeping: the attempt that constructed the socket; [None] for a
      socket of [openWebSocket] *)
  made_by : option Attempt;
}.

(** Where a call of [retry] is suspended. *)
Inductive Suspension :=
  (** at [await this.onWebSocketRetry()] *)
  | AwaitingHook
  (** at [await sleep(ms)], called when the clock read [since] *)
  | Sleeping (since ms : Z)
  | Returned.

Record Retry := {
  (** [const t = Date.now()] *)
  t : Z;
  suspended : Suspension;
  (** bookkeeping: the attempt whose socket failed or dropped *)
  follows : option Attempt;
}.

(** The values a hook can resolve to. *)
Inductive Value :=
  | undefined
  | null
  | boolean (b : bool)
  | number (z : Z)
  | text_value (s : string).

(** [result === false] *)
Definition strictly_false (v : Value) : bool :=
  match v with boolean false => true | _ => false end.

(** What a call of the update hook does. *)
Inductive Called :=
  | Throws (e : Thrown)
  (** returns something that is no [Promise] *)
  | ReturnsValue
  (** returns a promise, settled as given ([None]: never) *)
  | ReturnsPromise (settles : option (Settled unit)).

Inductive Output :=
  | console_error (e : Thrown)
  (** [console.debug(`Trying to reconnect ${url.toString()}...`)] *)
  | console_debug (url : URL)
  (** [socket.send(data.toString())] *)
  | send_called (s : nat) (data : Z)
  (** [socket.close(code)] *)
  | close_called (s : nat) (code : Z)
  | retry_hook_called (h : Hook)
  | update_hook_called (h : Hook) (cards : list NHICard)
  (** the promise of [openWebSocket] for socket [s] resolves *)
  | openWebSocket_resolved (s : nat)
  (** or rejects *)
  | openWebSocket_rejected (s : nat) (e : Thrown)
  (** an exception left an event handler *)
  | uncaught (e : Thrown).

Record World := {
  this : TWNHIICCService;
  (** every socket constructed so far; a socket is known by its position *)
  sockets : list WebSocket;
  (** every call of [retry] so far *)
  retries : list Retry;
  (** [Date.now()] *)
  now : Z;
  (** bookkeeping: the reconnection attempts made so far, latest first *)
  reconnects : list Reconnect;
  (** latest first *)
  output : list Output;
}.

(** *** Assignments *)

Definition set_webSocket (v : option nat) (w : World) : World :=
  let s := this w in
  {| this := {| urlPrefix := urlPrefix s; apiGetCardList := apiGetCardList s;
                apiGetVersion := apiGetVersion s; apiWebsocket := apiWebsocket s;
                webSocket := v;
                webSocketInterval := webSocketInterval s;
                onWebSocketRetry := onWebSocketRetry s;
                onWebSocketUpdate := onWebSocketUpdate s |};
     sockets := sockets w; retries := retries w; now := now w;
     reconnects := reconnects w; output := output w |}.

Definition set_webSocketInterval (v : option Z) (w : World) : World :=
  let s := this w in
  {| this := {| urlPrefix := urlPrefix s; apiGetCardList := apiGetCardList s;
                apiGetVersion := apiGetVersion s; apiWebsocket := apiWebsocket s;
                webSocket := webSocket s;
                webSocketInterval := v;
                onWebSocketRetry := onWebSocketRetry s;
                onWebSocketUpdate := onWebSocketUpdate s |};
     sockets := sockets w; retries := retries w; now := now w;
     reconnects := reconnects w; output := output w |}.

Definition set_onWebSocketRetry (v : option Hook) (w : World) : World :=
  let s := this w in
  {| this := {| urlPrefix := urlPrefix s; apiGetCardList := apiGetCardList s;
                apiGetVersion := apiGetVersion s; apiWebsocket := apiWebsocket s;
                webSocket := webSocket s;
                webSocketInterval := webSocketInterval s;
                onWebSocketRetry := v;
                onWebSocketUpdate := onWebSocketUpdate s |};
     sockets := sockets w; retries := retries w; now := now w;
     reconnects := reconnects w; output := output w |}.

Definition set_onWebSocketUpdate (v : option Hook) (w : World) : World :=
  let s := this w in
  {| this := {| urlPrefix := urlPrefix s; apiGetCardList := apiGetCardList s;
                apiGetVersion := apiGetVersion s; apiWebsocket := apiWebsocket s;
                webSocket := webSocket s;
                webSocketInterval := webSocketInterval s;
                onWebSocketRetry := onWebSocketRetry s;
                onWebSocketUpdate := v |};
     sockets := sockets w; retries := retries w; now := now w;
     reconnects := reconnects w; output := output w |}.

Definition set_sockets (v : list WebSocket) (w : World) : World :=
  {| this := this w; sockets := v; retries := retries w; now := now w;
     reconnects := reconnects w; output := output w |}.

Definition set_retries (v : list Retry) (w : World) : World :=
  {| this := this w; sockets := sockets w; retries := v; now := now w;
     reconnects := reconnects w; output := output w |}.

Definition set_now (v : Z) (w : World) : World :=
  {| this := this w; sockets := sockets w; retries := retries w; now := v;
     reconnects := reconnects w; output := output w |}.

Definition emit (o : Output) (w : World) : World :=
  {| this := this w; sockets := sockets w; retries := retries w; now := now w;
     reconnects := reconnects w; output := o :: output w |}.

Definition record_reconnect (r : Reconnect) (w : World) : World :=
  {| this := this w; sockets := sockets w; retries := retries w; now := now w;
     reconnects := r :: reconnects w; output := output w |}.

(** *** The platform's side of a socket *)

(** [new WebSocket(url)], with the handlers the program sets on it before
    it yields. *)
Definition new_WebSocket (url : URL) (h : Handlers) (by_ : option Attempt)
    (w : World) : World :=
  set_sockets (sockets w ++ [{| ws_url := url; readyState := CONNECTING;
                                handlers := h; made_by := by_ |}]) w.

Definition set_readyState (st : ReadyState) (sock : WebSocket) : WebSocket :=
  {| ws_url := ws_url sock; readyState := st;
     handlers := handlers sock; made_by := made_by sock |}.

Definition set_handlers (h : Handlers) (sock : WebSocket) : WebSocket :=
  {| ws_url := ws_url sock; readyState := readyState sock;
     handlers := h; made_by := made_by sock |}.

(** [socket.close(code)]: starts the closing handshake of a socket that is
    not closed yet. *)
Definition socket_close (s : nat) (code : Z) (w : World) : World :=
  let closing sock :=
    match readyState sock with
    | CONNECTING | OPEN => set_readyState CLOSING sock
    | CLOSING | CLOSED => sock
    end in
  emit (close_called s code) (set_sockets (alter closing s (sockets w)) w).

Definition suspend (k : nat) (at_ : Suspension) (w : World) : World :=
  set_retries
    (alter (fun r => {| t := t r; suspended := at_; follows := follows r |})
           k (retries w)) w.

(** *** The methods and closures of [TWNHIICCService] *)

(** [if (interval < 0) interval = 0; else interval = Math.floor(interval)] *)
Definition clamp_interval (interval : Q) : Z :=
  if negb (Qle_bool 0 interval) then 0 else Qfloor interval.

(** The part of [retry] after the delay: the check of the handle and the
    new connection. *)
Definition retry_connect (k : nat) (r : Retry) (w : World) : World :=
  let w := suspend k Returned w in
  match webSocket (this w) with
  | None => w
  | Some _ =>
      let url := apiWebsocket (this w) in
      let url :=
        match webSocketInterval (this w) with
        | Some i => searchParams_append "interval" i url
        | None => url
        end in
      let w := emit (console_debug url) w in
      let a := {| start := t r; construction := now w |} in
      let w := record_reconnect {| previous := follows r; current := a |} w in
      new_WebSocket url ReconnectingHandlers (Some a) w
  end.

(** The part of [retry] from [const d = Date.now() - t] on. *)
Definition retry_delay (k : nat) (r : Retry) (w : World) : World :=
  let d := now w - t r in
  if d <? RETRY_INTERVAL
  then suspend k (Sleeping (now w) (RETRY_INTERVAL - d)) w
  else retry_connect k r w.

(** The continuation of [await this.onWebSocketRetry()]. *)
Definition retry_after_hook (k : nat) (r : Retry) (result : Settled Value)
    (w : World) : World :=
  match result with
  | Resolved v =>
      if strictly_false v
      then suspend k Returned (set_webSocket None w)
      else retry_delay k r w
  | Rejected error => retry_delay k r (emit (console_error error) w)
  end.

(** A call of [retry], up to its first suspension. *)
Definition retry (after : option Attempt) (w : World) : World :=
  let k := length (retries w) in
  let r := {| t := now w; suspended := AwaitingHook; follows := after |} in
  let w := set_retries (retries w ++ [r]) w in
  match onWebSocketRetry (this w) with
  | Some h => emit (retry_hook_called h) w
  | None => retry_delay k r w
  end.

Definition onclose (sock : WebSocket) (w : World) : World :=
  match webSocket (this w) with
  | None => w
  | Some _ => retry (made_by sock) w
  end.

(** [onmessage], with the outcome of [JSON.parse(event.data)] ([None]: it
    throws, or what it returns is no array for [mapCardList]) and what the
    hook does if it is called.  The second component
    is the exception the handler ends with, if any. *)
Definition onmessage (data : option (list ServiceNHICard)) (hook : Called)
    (w : World) : World * option Thrown :=
  match onWebSocketUpdate (this w) with
  | None => (w, None)
  | Some h =>
      match data with
      | None => (w, Some (ErrorLike true "SyntaxError" "Unexpected token"))
      | Some cards =>
          let w := emit (update_hook_called h (mapCardList cards)) w in
          match hook with
          | Throws e => (w, Some e)
          | ReturnsValue => (w, None)
          | ReturnsPromise (Some (Rejected error)) =>
              (emit (console_error error) w, None)
          | ReturnsPromise _ => (w, None)
          end
      end
  end.

(** [openWebSocket(interval = 3)], up to [await promise]. *)
Definition openWebSocket (interval : option Q) (w : World) : World :=
  match webSocket (this w) with
  | Some _ => w
  | None =>
      let interval : option Q := Some (default (3 : Q) interval) in
      let url := apiWebsocket (this w) in
      let '(interval, url) :=
        match interval with
        | Some i =>
            let i := clamp_interval i in
            (Some i, searchParams_append "interval" i url)
        | None => (None, url)
        end in
      let w := set_webSocketInterval interval w in
      new_WebSocket url OpeningHandlers None w
  end.

Definition isWebSocketRunning (w : World) : bool :=
  match webSocket (this w) with
  | Some _ => true
  | None => false
  end.

Definition closeWebSocket (w : World) : World :=
  match webSocket (this w) with
  | Some s => set_webSocket None (socket_close s 1000 w)
  | None => w
  end.

Definition setWebSocketInterval (interval : option Q) (w : World)
  : bool * World :=
  match webSocket (this w) with
  | None => (false, w)
  | Some s =>
      match interval with
      | Some i =>
          let i := clamp_interval i in
          (true, set_webSocketInterval (Some i) (emit (send_called s i) w))
      | None => (false, set_webSocketInterval None w)
      end
  end.

(** *** Events *)

(** Modelled from the spec: [sleep.js] is not among the sources.  It is the
    capability "to suspend the current operation for a given duration": a
    [sleep(ms)] called when the clock read [since] is over no sooner than
    when the clock reads [since + ms]. *)
Definition sleep_is_over (since ms clock : Z) : bool := since + ms <=? clock.

Inductive Event :=
  | Call_openWebSocket (interval : option Q)
  | Call_closeWebSocket
  | Call_setWebSocketInterval (interval : option Q)
  | Assign_onWebSocketRetry (h : option Hook)
  | Assign_onWebSocketUpdate (h : option Hook)
  (** the clock advances *)
  | Elapse (ms : N)
  (** the connection of socket [s] is established *)
  | Socket_open (s : nat)
  (** the connection of socket [s] cannot be established; [error] is the
      [error] member of the event *)
  | Socket_error (s : nat) (error : option Thrown)
  (** the connection of socket [s] is closed, by either end *)
  | Socket_close (s : nat)
  | Socket_message (s : nat) (data : option (list ServiceNHICard)) (hook : Called)
  (** the call of the retry hook made by retry [k] settles *)
  | Hook_settled (k : nat) (result : Settled Value)
  (** the timer of the [sleep] of retry [k] fires *)
  | Sleep_over (k : nat).

Definition update_socket (s : nat) (f : WebSocket -> WebSocket) (w : World)
  : World :=
  set_sockets (alter f s (sockets w)) w.

(** One event; [None] when the platform cannot deliver it in this world. *)
Definition step (e : Event) (w : World) : option World :=
  match e with
  | Call_openWebSocket interval => Some (openWebSocket interval w)
  | Call_closeWebSocket => Some (closeWebSocket w)
  | Call_setWebSocketInterval interval => Some (snd (setWebSocketInterval interval w))
  | Assign_onWebSocketRetry h => Some (set_onWebSocketRetry h w)
  | Assign_onWebSocketUpdate h => Some (set_onWebSocketUpdate h w)
  | Elapse ms => Some (set_now (now w + Z.of_N ms) w)
  | Socket_open s =>
      sock ← sockets w !! s;
      match readyState sock, handlers sock with
      | CONNECTING, OpeningHandlers =>
          (* [webSocket.onopen], then the continuation of [await promise] *)
          let w := update_socket s (fun x => set_handlers LiveHandlers
                                               (set_readyState OPEN x)) w in
          Some (set_webSocket (Some s) (emit (openWebSocket_resolved s) w))
      | CONNECTING, ReconnectingHandlers =>
          (* [newWebSocket.onopen] *)
          let w := update_socket s (fun x => set_handlers LiveHandlers
                                               (set_readyState OPEN x)) w in
          Some (set_webSocket (Some s) w)
      | _, _ => None
      end
  | Socket_error s error =>
      sock ← sockets w !! s;
      match readyState sock, handlers sock with
      | CONNECTING, OpeningHandlers =>
          (* [webSocket.onerror] *)
          let w := update_socket s (set_readyState CLOSED) w in
          let rejection :=
            match error with
            | Some tryError =>
                if has_name_and_message tryError
                then new_NetworkError tryError
                else NetworkError (CannotConnect (ws_url sock))
            | None => NetworkError (CannotConnect (ws_url sock))
            end in
          Some (emit (openWebSocket_rejected s rejection) w)
      | CONNECTING, ReconnectingHandlers =>
          (* [newWebSocket.onerror] *)
          let w := update_socket s (set_readyState CLOSED) w in
          Some (retry (made_by sock) w)
      | _, _ => None
      end
  | Socket_close s =>
      sock ← sockets w !! s;
      match readyState sock, handlers sock with
      | (OPEN | CLOSING), LiveHandlers =>
          let w := update_socket s (set_readyState CLOSED) w in
          Some (onclose sock w)
      | _, _ => None
      end
  | Socket_message s data hook =>
      sock ← sockets w !! s;
      match readyState sock, handlers sock with
      | (OPEN | CLOSING), LiveHandlers =>
          let '(w, thrown) := onmessage data hook w in
          match thrown with
          | Some e => Some (emit (uncaught e) w)
          | None => Some w
          end
      | _, _ => None
      end
  | Hook_settled k result =>
      r ← retries w !! k;
      match suspended r with
      | AwaitingHook => Some (retry_after_hook k r result w)
      | _ => None
      end
  | Sleep_over k =>
      r ← retries w !! k;
      match suspended r with
      | Sleeping since ms =>
          if sleep_is_over since ms (now w)
          then Some (retry_connect k r w) else None
      | _ => None
      end
  end.

Fixpoint run (es : list Event) (w : World) : option World :=
  match es with
  | [] => Some w
  | e :: es => w' ← step e w; run es w'
  end.

(** A service just constructed, the clock reading [t0]. *)
Definition initial (urlPrefix : option URL) (t0 : Z) : World :=
  {| this := constructor urlPrefix; sockets := []; retries := [];
     now := t0; reconnects := []; output := [] |}.

Inductive reachable : World -> Prop :=
  | reachable_initial urlPrefix t0 : reachable (initial urlPrefix t0)
  | reachable_step e w w' :
      reachable w -> step e w = Some w' -> reachable w'.

(** * Notions the properties are stated with *)


(** ** The connection state

    The program keeps no state variable; the four states of the channel
    are read off the world.  The channel is [Open] when it holds a socket
    whose connection is open, and [Retrying] when the socket it holds has
    lost its connection: a reconnection sequence is under way, the
    connecting of its new socket included.  Holding no socket, the channel
    is [Connecting] while a socket of [openWebSocket] is still connecting
    and [Closed] otherwise. *)

Inductive ConnectionState := Closed | Connecting | Open | Retrying.

Definition is_connecting (sock : WebSocket) : bool :=
  match readyState sock, handlers sock with
  | CONNECTING, OpeningHandlers => true
  | _, _ => false
  end.

Definition connectionState (w : World) : ConnectionState :=
  match webSocket (this w) with
  | Some s =>
      match readyState <$> sockets w !! s with
      | Some OPEN => Open
      | _ => Retrying
      end
  | None => if existsb is_connecting (sockets w) then Connecting else Closed
  end.

(** The URL a reconnection goes to. *)
Definition reconnect_url (s : TWNHIICCService) : URL :=
  match webSocketInterval s with
  | Some i => searchParams_append "interval" i (apiWebsocket s)
  | None => apiWebsocket s
  end.

(** ** Spacing of reconnections *)






(** The record of reconnections is complete: the sockets constructed by
    [retry] are the attempts on record, in the order of construction. *)
Definition recorded (w : World) : Prop :=
  omap made_by (sockets w) = rev (map current (reconnects w)).

(** ** A channel at rest *)

(** Nothing is left that could construct a socket or install one: the
    channel holds no socket, no call of [retry] is suspended and no socket
    is connecting. *)
Definition at_rest (w : World) : Prop :=
  webSocket (this w) = None ∧
  Forall (fun r => suspended r = Returned) (retries w) ∧
  Forall (fun sock => readyState sock <> CONNECTING) (sockets w).

(** Retry [k] is the only thing under way. *)
Definition only_retry (k : nat) (w : World) : Prop :=
  (forall j r, retries w !! j = Some r -> j <> k -> suspended r = Returned) ∧
  Forall (fun sock => readyState sock <> CONNECTING) (sockets w).

Definition is_open_call (e : Event) : bool :=
  match e with Call_openWebSocket _ => true | _ => false end.

(** Events among which the owner never calls [openWebSocket]. *)
Definition no_open_call (es : list Event) : Prop :=
  Forall (fun e => is_open_call e = false) es.

(** The platform lets the [sleep] of retry [k] run out, if it sleeps. *)
Definition sleep_out (k : nat) (w : World) : option World :=
  match suspended <$> retries w !! k with
  | Some (Sleeping since ms) =>
      run [Elapse (Z.to_N (since + ms - now w)); Sleep_over k] w
  | _ => Some w
  end.



(** A channel whose connection was lost after a successful
    [openWebSocket], its retry hook called and not settled yet. *)
Definition hook_pending_events : list Event :=
  [Call_openWebSocket None; Socket_open 0%nat;
   Assign_onWebSocketRetry (Some 0%nat); Elapse 5; Socket_close 0%nat].

Definition hook_pending : World :=
  default (initial None 0) (run hook_pending_events (initial None 0)).

(** ** The events as a relation

    What [step] computes, as a relation between worlds: one constructor for
    each way an event is handled, with the conditions under which the
    platform delivers it. *)

(** The [OPEN] socket with its live handlers, as [onopen] leaves it. *)
Definition opened (x : WebSocket) : WebSocket :=
  set_handlers LiveHandlers (set_readyState OPEN x).

(** What [webSocket.onerror] rejects the promise of [openWebSocket]
    with. *)
Definition rejection (error : option Thrown) (url : URL) : Thrown :=
  match error with
  | Some tryError =>
      if has_name_and_message tryError
      then new_NetworkError tryError
      else NetworkError (CannotConnect url)
  | None => NetworkError (CannotConnect url)
  end.

(** The platform's end of a handler: an exception that leaves it is
    reported. *)
Definition deliver (r : World * option Thrown) : World :=
  match snd r with
  | Some e => emit (uncaught e) (fst r)
  | None => fst r
  end.

Inductive Step (w : World) : World -> Prop :=
  | Step_openWebSocket interval : Step w (openWebSocket interval w)
  | Step_closeWebSocket : Step w (closeWebSocket w)
  | Step_setWebSocketInterval interval :
      Step w (snd (setWebSocketInterval interval w))
  | Step_assign_retry h : Step w (set_onWebSocketRetry h w)
  | Step_assign_update h : Step w (set_onWebSocketUpdate h w)
  | Step_elapse ms : Step w (set_now (now w + Z.of_N ms) w)
  | Step_open_first s sock :
      sockets w !! s = Some sock ->
      readyState sock = CONNECTING -> handlers sock = OpeningHandlers ->
      Step w (set_webSocket (Some s)
                (emit (openWebSocket_resolved s) (update_socket s opened w)))
  | Step_open_again s sock :
      sockets w !! s = Some sock ->
      readyState sock = CONNECTING -> handlers sock = ReconnectingHandlers ->
      Step w (set_webSocket (Some s) (update_socket s opened w))
  | Step_error_first s sock error :
      sockets w !! s = Some sock ->
      readyState sock = CONNECTING -> handlers sock = OpeningHandlers ->
      Step w (emit (openWebSocket_rejected s (rejection error (ws_url sock)))
                (update_socket s (set_readyState CLOSED) w))
  | Step_error_again s sock :
      sockets w !! s = Some sock ->
      readyState sock = CONNECTING -> handlers sock = ReconnectingHandlers ->
      Step w (retry (made_by sock) (update_socket s (set_readyState CLOSED) w))
  | Step_close s sock :
      sockets w !! s = Some sock ->
      readyState sock = OPEN ∨ readyState sock = CLOSING ->
      handlers sock = LiveHandlers ->
      Step w (onclose sock (update_socket s (set_readyState CLOSED) w))
  | Step_message s sock data hook :
      sockets w !! s = Some sock ->
      readyState sock = OPEN ∨ readyState sock = CLOSING ->
      handlers sock = LiveHandlers ->
      Step w (deliver (onmessage data hook w))
  | Step_hook k r result :
      retries w !! k = Some r -> suspended r = AwaitingHook ->
      Step w (retry_after_hook k r result w)
  | Step_sleep_over k r since ms :
      retries w !! k = Some r -> suspended r = Sleeping since ms ->
      since + ms <= now w ->
      Step w (retry_connect k r w).

(** ** Where the channel connects to, and what it sends *)

(** The address for an interval: [/ws?interval=i], or [/ws] for none. *)
Definition address_of (base : URL) (i : option Z) : URL :=
  match i with
  | Some i => searchParams_append "interval" i base
  | None => base
  end.





(** ** The socket the channel holds *)

Definition live (sock : WebSocket) : Prop :=
  handlers sock = LiveHandlers ∧ readyState sock <> CONNECTING.

Definition held_live (w : World) : Prop :=
  match webSocket (this w) with
  | Some s => exists sock, sockets w !! s = Some sock ∧ live sock
  | None => True
  end ∧
  Forall (fun sock => handlers sock = LiveHandlers -> readyState sock <> CONNECTING)
         (sockets w).

(** ** The addresses of the service *)

Definition addresses (s : TWNHIICCService) : URL * URL * URL * URL :=
  (urlPrefix s, apiGetCardList s, apiGetVersion s, apiWebsocket s).

(** The scheme of the WebSocket address for the scheme of the prefix. *)
Definition upgraded (scheme : string) : string :=
  if String.eqb scheme "http:" then "ws:"
  else if String.eqb scheme "https:" then "wss:"
  else scheme.

(** A channel just opened: one socket, open and held; and one whose first
    connection is still being made. *)
Definition just_opened : World :=
  default (initial None 0)
    (run [Call_openWebSocket None; Socket_open 0%nat] (initial None 0)).

Definition just_called : World :=
  default (initial None 0) (run [Call_openWebSocket None] (initial None 0)).

(** A channel in the delay of its first reconnection (no retry hook), and
    one whose first reconnection has been made and is connecting. *)
Definition in_delay : World :=
  default (initial None 0)
    (run [Call_openWebSocket None; Socket_open 0%nat; Elapse 5;
          Socket_close 0%nat] (initial None 0)).

Definition reconnecting : World :=
  default (initial None 0)
    (run [Call_openWebSocket None; Socket_open 0%nat; Elapse 5;
          Socket_close 0%nat; Elapse 1000; Sleep_over 0%nat] (initial None 0)).

(** * Properties *)

(** ** The definitions at work *)

Example clamp_interval_negative : clamp_interval (-5 # 1) = 0.
Proof. reflexivity. Qed.

Example clamp_interval_fraction : clamp_interval (29 # 10) = 2.
Proof. reflexivity. Qed.

Example constructor_secure :
  apiWebsocket (constructor (Some {| protocol := "https:"; host := "nhi.example";
                                     pathname := "/"; searchParams := [] |}))
  = {| protocol := "wss:"; host := "nhi.example";
       pathname := "/ws"; searchParams := [] |}.
Proof. reflexivity. Qed.

(** [openWebSocket(-5)] and [openWebSocket(0)] construct the same socket. *)
Example openWebSocket_clamps :
  openWebSocket (Some (-5 # 1)) (initial None 0)
  = openWebSocket (Some (0 # 1)) (initial None 0) ∧
  openWebSocket (Some (29 # 10)) (initial None 0)
  = openWebSocket (Some (2 # 1)) (initial None 0).
Proof. split; vm_compute; reflexivity. Qed.

(** After [setWebSocketInterval(5)] on an open channel, a reconnection
    goes to [/ws?interval=5]. *)
Example reconnect_uses_current_interval :
  option_map (fun w => (map ws_url (sockets w), output w))
    (run [Call_openWebSocket None; Socket_open 0%nat;
          Call_setWebSocketInterval (Some (5 # 1)); Socket_close 0%nat;
          Elapse 1000; Sleep_over 0%nat] (initial None 0))
  = let ws i := {| protocol := "ws:"; host := "127.0.0.1:12345";
                   pathname := "/ws"; searchParams := [("interval", i)] |} in
    Some ([ws 3; ws 5],
          [console_debug (ws 5); send_called 0 5; openWebSocket_resolved 0]).
Proof. vm_compute. reflexivity. Qed.

(** A first connection that fails rejects with a [NetworkError] and is not
    retried. *)
Example openWebSocket_unreachable :
  option_map (fun w => (isWebSocketRunning w, output w, retries w))
    (run [Call_openWebSocket None; Socket_error 0%nat None] (initial None 0))
  = Some (false,
          [openWebSocket_rejected 0
             (NetworkError (CannotConnect
                {| protocol := "ws:"; host := "127.0.0.1:12345";
                   pathname := "/ws"; searchParams := [("interval", 3)] |}))],
          []).
Proof. vm_compute. reflexivity. Qed.

(** The timer of a [sleep] cannot fire early. *)
Example sleep_not_over_early :
  run [Call_openWebSocket None; Socket_open 0%nat; Socket_close 0%nat;
       Elapse 999; Sleep_over 0%nat] (initial None 0) = None.
Proof. vm_compute. reflexivity. Qed.

(** ** Card-list reshaping *)


Lemma mapCardList_app cards1 cards2 :
  mapCardList (cards1 ++ cards2) = mapCardList cards1 ++ mapCardList cards2.
Proof. apply map_app. Qed.


(** Both users of the reshaping hand over exactly its result. *)
Lemma getCardList_reshapes parse fetch this timeout cards :
  fetchWithTimeout parse fetch (apiGetCardList this)
    {| signal := None; timeout := Some (default 15000 timeout) |}
  = Resolved cards ->
  getCardList parse fetch this timeout = Resolved (mapCardList cards).
Proof. intros H. unfold getCardList. simpl. rewrite H. reflexivity. Qed.

Lemma onmessage_reshapes w h cards hook :
  onWebSocketUpdate (this w) = Some h ->
  In (update_hook_called h (mapCardList cards))
     (output (fst (onmessage (Some cards) hook w))).
Proof.
  intros H. unfold onmessage. rewrite H.
  destruct hook as [e| |[[[]|e]|]]; simpl; auto.
Qed.

(** ** The timed request path *)

Section FetchFacts.

Context {T : Type}.
Variable JSON_parse : string -> option T.

(** What the executor does with a response whose body can be read. *)
Lemma fetchWithTimeout_answered fetch url config st txt :
  (forall c, fetch url c = Resolved {| status := st; body := BodyText txt |}) ->
  fetchWithTimeout JSON_parse fetch url config =
  if st =? 200
  then match JSON_parse txt with
       | Some v => Resolved v
       | None => Rejected (Error (StatusNoBody st))
       end
  else Rejected (Error (StatusAndBody st txt)).
Proof.
  intros Hf. unfold fetchWithTimeout. rewrite Hf. simpl.
  destruct (st =? 200); simpl.
  - unfold response_json. simpl. destruct (JSON_parse txt); reflexivity.
  - reflexivity.
Qed.

(** A rejection of the transport is classified by what is rejected. *)
Lemma fetchWithTimeout_rejected fetch url config error :
  (forall c, fetch url c = Rejected error) ->
  fetchWithTimeout JSON_parse fetch url config =
  if instanceof_DOMException error
  then Rejected (TimeoutError (Literal "request timeout"))
  else if has_name_and_message error
  then Rejected (new_NetworkError error)
  else Rejected error.
Proof. intros Hf. unfold fetchWithTimeout. rewrite Hf. reflexivity. Qed.

(** The signal the platform sees. *)
Lemma fetchWithTimeout_platform remote url ms :
  0 <= ms ->
  fetchWithTimeout JSON_parse (platform_fetch remote) url
    {| signal := None; timeout := Some ms |} =
  match remote with
  | Unreachable t msg =>
      if ms <=? Z.of_N t
      then Rejected (TimeoutError (Literal "request timeout"))
      else Rejected (NetworkError (Literal msg))
  | Reachable th st tb txt =>
      if ms <=? Z.of_N th
      then Rejected (TimeoutError (Literal "request timeout"))
      else if ms <=? Z.of_N (th + tb)
      then if st =? 200
           then Rejected (TimeoutError (Literal "body timeout"))
           else Rejected timeout_abort
      else if st =? 200
      then match JSON_parse txt with
           | Some v => Resolved v
           | None => Rejected (Error (StatusNoBody st))
           end
      else Rejected (Error (StatusAndBody st txt))
  end.
Proof.
  intros Hms. unfold fetchWithTimeout. simpl.
  apply Z.leb_le in Hms. rewrite Hms.
  destruct remote as [t msg|th st tb txt]; simpl.
  - destruct (ms <=? Z.of_N t); reflexivity.
  - destruct (ms <=? Z.of_N th); simpl; [reflexivity|].
    destruct (ms <=? Z.of_N (th + tb)); simpl.
    + destruct (st =? 200); reflexivity.
    + destruct (st =? 200); simpl; [|reflexivity].
      unfold response_json. simpl. destruct (JSON_parse txt); reflexivity.
Qed.

(** The parts of the contract of the executor that hold: a deadline
    that passes before the response arrives is a [TimeoutError], also
    for a budget of [0]; so is one that passes while the body of a [200]
    response is read; a refused connection is a [NetworkError] and no
    [TimeoutError]. *)
Lemma fetchWithTimeout_request_timeout url ms th st tb txt :
  0 <= ms <= Z.of_N th ->
  fetchWithTimeout JSON_parse (platform_fetch (Reachable th st tb txt)) url
    {| signal := None; timeout := Some ms |}
  = Rejected (TimeoutError (Literal "request timeout")).
Proof.
  intros [H0 H1]. rewrite fetchWithTimeout_platform by assumption.
  apply Z.leb_le in H1. rewrite H1. reflexivity.
Qed.

Lemma fetchWithTimeout_zero url remote :
  fetchWithTimeout JSON_parse (platform_fetch remote) url
    {| signal := None; timeout := Some 0 |}
  = Rejected (TimeoutError (Literal "request timeout")).
Proof.
  rewrite fetchWithTimeout_platform by lia.
  destruct remote as [t msg|th st tb txt];
    (replace (0 <=? Z.of_N _) with true by (symmetry; apply Z.leb_le; lia));
    reflexivity.
Qed.

Lemma fetchWithTimeout_body_timeout_200 url ms th tb txt :
  Z.of_N th < ms <= Z.of_N (th + tb) ->
  fetchWithTimeout JSON_parse (platform_fetch (Reachable th 200 tb txt)) url
    {| signal := None; timeout := Some ms |}
  = Rejected (TimeoutError (Literal "body timeout")).
Proof.
  intros [H0 H1]. rewrite fetchWithTimeout_platform by lia.
  apply Z.leb_gt in H0. apply Z.leb_le in H1. rewrite H0, H1. reflexivity.
Qed.


(** The part that does not: when the deadline passes while the body of a
    response with another status is read, [skipCatch] is already set and
    the [DOMException] of the platform is thrown on as it is. *)
Lemma fetchWithTimeout_body_timeout_other url ms th st tb txt :
  st <> 200 ->
  Z.of_N th < ms <= Z.of_N (th + tb) ->
  fetchWithTimeout JSON_parse (platform_fetch (Reachable th st tb txt)) url
    {| signal := None; timeout := Some ms |}
  = Rejected timeout_abort.
Proof.
  intros Hst [H0 H1]. rewrite fetchWithTimeout_platform by lia.
  apply Z.leb_gt in H0. apply Z.leb_le in H1. rewrite H0, H1.
  apply Z.eqb_neq in Hst. rewrite Hst. reflexivity.
Qed.

End FetchFacts.

(** C2, at a service that answers [500] after 10 ms and has sent the body
    50 ms later, asked with a budget of 30 ms: the budget runs out while
    the body is read, and [getVersion] fails with the [DOMException] of
    the platform, which is neither a [TimeoutError] nor a
    [NetworkError]. *)
Theorem getVersion_body_timeout_not_TimeoutError :
  let remote := Reachable 10 500 50 "Internal Server Error" in
  getVersion (fun _ => None) (platform_fetch remote) (constructor None) (Some 30)
  = Rejected timeout_abort ∧
  instanceof_DOMException timeout_abort = true ∧
  instanceof_TimeoutError timeout_abort = false ∧
  instanceof_NetworkError timeout_abort = false.
Proof. repeat split. Qed.

(** C5 as stated fails at a [201] response: the body is valid JSON and the
    status a success status, and the executor fails with the generic error
    all the same. *)
Lemma fetchWithTimeout_201_fails :
  let response := {| status := 201; body := BodyText "[]" |} in
  let result :=
    fetchWithTimeout (fun _ => Some ([] : list ServiceNHICard))
      (fun _ _ => Resolved response) (new_URL "/" default_urlPrefix)
      {| signal := None; timeout := Some 15000 |} in
  result = Rejected (Error (StatusAndBody 201 "[]")) ∧ result <> Resolved [].
Proof. split; [reflexivity | discriminate]. Qed.

(** C5, amended.  For every response received whose body can be read: the
    executor returns the parsed JSON body when the status is [200] and the
    body parses; it fails with the generic error that carries the status
    code and the raw body text exactly when the status is not [200]; and
    what it fails with on such a response is never a [NetworkError] (so no
    [TimeoutError] either). *)
Theorem fetchWithTimeout_status {T : Type} (JSON_parse : string -> option T)
    (url : URL) (config : RequestInit) (st : Z) (txt : string) :
  let response := {| status := st; body := BodyText txt |} in
  let result := fetchWithTimeout JSON_parse (fun _ _ => Resolved response) url config in
  result = (if st =? 200
            then match JSON_parse txt with
                 | Some v => Resolved v
                 | None => Rejected (Error (StatusNoBody st))
                 end
            else Rejected (Error (StatusAndBody st txt))) ∧
  (result = Rejected (Error (StatusAndBody st txt)) <-> st <> 200) ∧
  (forall e, result = Rejected e -> instanceof_NetworkError e = false).
Proof.
  intros response result.
  assert (Hr : result = if st =? 200
            then match JSON_parse txt with
                 | Some v => Resolved v
                 | None => Rejected (Error (StatusNoBody st))
                 end
            else Rejected (Error (StatusAndBody st txt))).
  { unfold result. apply fetchWithTimeout_answered. reflexivity. }
  split; [exact Hr|]. rewrite Hr. split; [split|].
  - intros H Heq. subst st. simpl in H.
    destruct (JSON_parse txt); discriminate.
  - intros Hne. apply Z.eqb_neq in Hne. rewrite Hne. reflexivity.
  - intros e. destruct (st =? 200).
    + destruct (JSON_parse txt); intros H; inversion H; reflexivity.
    + intros H; inversion H; reflexivity.
Qed.

(** ** The channel: single calls *)

Lemma closeWebSocket_not_running w : isWebSocketRunning (closeWebSocket w) = false.
Proof.
  unfold closeWebSocket, isWebSocketRunning.
  destruct (webSocket (this w)) eqn:H; simpl; [reflexivity | now rewrite H].
Qed.

Lemma closeWebSocket_idempotent w :
  closeWebSocket (closeWebSocket w) = closeWebSocket w.
Proof.
  unfold closeWebSocket at 1.
  pose proof (closeWebSocket_not_running w) as H. unfold isWebSocketRunning in H.
  destruct (webSocket (this (closeWebSocket w))); [discriminate | reflexivity].
Qed.

(** C10. Without a socket, [setWebSocketInterval] returns [false] whatever
    its argument, [undefined] included, and leaves the world as it is:
    nothing is sent and no field changes, the stored interval in
    particular. *)
Theorem setWebSocketInterval_without_socket (w : World) (interval : option Q) :
  webSocket (this w) = None ->
  setWebSocketInterval interval w = (false, w) ∧
  output (snd (setWebSocketInterval interval w)) = output w ∧
  webSocketInterval (this (snd (setWebSocketInterval interval w)))
  = webSocketInterval (this w).
Proof.
  intros H. unfold setWebSocketInterval. rewrite H. auto.
Qed.

(** With a socket, an [undefined] argument does clear the stored
    interval. *)
Lemma setWebSocketInterval_undefined_with_socket w s :
  webSocket (this w) = Some s ->
  fst (setWebSocketInterval None w) = false ∧
  webSocketInterval (this (snd (setWebSocketInterval None w))) = None ∧
  output (snd (setWebSocketInterval None w)) = output w.
Proof.
  intros H. unfold setWebSocketInterval. rewrite H. auto.
Qed.

(** A closed channel that remembers the interval [3] of its last
    [openWebSocket]. *)
Lemma setWebSocketInterval_without_socket_witness :
  exists w,
    run [Call_openWebSocket None; Socket_open 0%nat; Call_closeWebSocket]
        (initial None 0) = Some w ∧
    webSocketInterval (this w) = Some 3 ∧
    setWebSocketInterval None w = (false, w) ∧
    webSocketInterval (this (snd (setWebSocketInterval None w))) = Some 3.
Proof.
  eexists. split; [reflexivity|]. split; [reflexivity|].
  split.
  - apply setWebSocketInterval_without_socket. reflexivity.
  - reflexivity.
Defined.

(** C6 as stated fails while the channel is [Connecting]: a second call
    of [openWebSocket] before the first socket has opened constructs a
    second socket and overwrites the stored interval. *)
Lemma openWebSocket_twice_while_connecting :
  exists w w',
    run [Call_openWebSocket None] (initial None 0) = Some w ∧
    connectionState w = Connecting ∧
    step (Call_openWebSocket (Some (7 # 1))) w = Some w' ∧
    length (sockets w) = 1%nat ∧
    length (sockets w') = 2%nat ∧
    Forall (fun sock => is_connecting sock = true) (sockets w') ∧
    webSocketInterval (this w) = Some 3 ∧
    webSocketInterval (this w') = Some 7.
Proof.
  do 2 eexists. repeat split; try reflexivity.
  repeat constructor.
Qed.

(** C6, amended.  [openWebSocket] is guarded by the handle alone.  Called
    while the channel holds a socket, it is a no-op: no socket is
    constructed and nothing in the world changes.  Called while the
    channel holds none, it stores the clamped interval and constructs one
    socket, to the address with that interval. *)
Theorem openWebSocket_guard (w : World) (interval : option Q) :
  match webSocket (this w) with
  | Some _ => openWebSocket interval w = w
  | None =>
      let i := clamp_interval (default (3 : Q) interval) in
      webSocketInterval (this (openWebSocket interval w)) = Some i ∧
      webSocket (this (openWebSocket interval w)) = None ∧
      sockets (openWebSocket interval w)
      = sockets w ++ [{| ws_url := searchParams_append "interval" i
                                     (apiWebsocket (this w));
                         readyState := CONNECTING;
                         handlers := OpeningHandlers;
                         made_by := None |}]
  end.
Proof.
  unfold openWebSocket. destruct (webSocket (this w)) eqn:H.
  - reflexivity.
  - simpl. auto.
Qed.

(** In terms of the states: a no-op when [Open] or [Retrying], not when
    [Connecting] or [Closed]. *)
Lemma connectionState_handle w :
  match connectionState w with
  | Open | Retrying => isWebSocketRunning w = true
  | Closed | Connecting => isWebSocketRunning w = false
  end.
Proof.
  unfold connectionState, isWebSocketRunning.
  destruct (webSocket (this w)) as [s|].
  - destruct (readyState <$> sockets w !! s) as [[]|]; reflexivity.
  - destruct (existsb is_connecting (sockets w)); reflexivity.
Qed.

Lemma openWebSocket_noop_states w interval :
  connectionState w = Open ∨ connectionState w = Retrying ->
  openWebSocket interval w = w.
Proof.
  intros H. pose proof (connectionState_handle w) as Hh.
  unfold isWebSocketRunning in Hh. unfold openWebSocket.
  destruct H as [H|H]; rewrite H in Hh;
    destruct (webSocket (this w)); (discriminate || reflexivity).
Qed.



(** ** The channel: inbound messages *)

(** Whatever the hook does, [onmessage] touches nothing but the output:
    the state of the channel is as before. *)
Lemma onmessage_state w data hook :
  let w' := fst (onmessage data hook w) in
  this w' = this w ∧ sockets w' = sockets w ∧ retries w' = retries w ∧
  now w' = now w ∧ reconnects w' = reconnects w.
Proof.
  unfold onmessage. destruct (onWebSocketUpdate (this w)); [|simpl; auto].
  destruct data as [cards|]; [|simpl; auto].
  destruct hook as [e| |[[[]|e]|]]; simpl; auto.
Qed.

(** A rejection of the promise the hook returns is logged, and the handler
    ends normally. *)
Lemma onmessage_rejection_logged w h cards error :
  onWebSocketUpdate (this w) = Some h ->
  onmessage (Some cards) (ReturnsPromise (Some (Rejected error))) w
  = (emit (console_error error)
       (emit (update_hook_called h (mapCardList cards)) w), None).
Proof. intros H. unfold onmessage. rewrite H. reflexivity. Qed.

(** An exception the hook throws is not caught: the handler ends with it,
    and nothing is logged. *)
Lemma onmessage_throw_escapes w h cards e :
  onWebSocketUpdate (this w) = Some h ->
  onmessage (Some cards) (Throws e) w
  = (emit (update_hook_called h (mapCardList cards)) w, Some e).
Proof. intros H. unfold onmessage. rewrite H. reflexivity. Qed.

(** C4, at an open channel whose update hook throws on an empty card
    list: the exception leaves [onmessage] and reaches the platform
    uncaught; [console.error] is not called.  (The channel stays as it
    is.) *)
Theorem onmessage_hook_throws_uncaught :
  let boom := ErrorLike true "Error" "boom" in
  exists w w',
    run [Call_openWebSocket None; Socket_open 0%nat;
         Assign_onWebSocketUpdate (Some 0%nat)] (initial None 0) = Some w ∧
    snd (onmessage (Some []) (Throws boom) w) = Some boom ∧
    step (Socket_message 0%nat (Some []) (Throws boom)) w = Some w' ∧
    output w' = uncaught boom :: update_hook_called 0%nat [] :: output w ∧
    ~ In (console_error boom) (output w') ∧
    this w' = this w ∧ sockets w' = sockets w.
Proof.
  intros boom. do 2 eexists.
  split; [vm_compute; reflexivity|].
  split; [vm_compute; reflexivity|].
  split; [vm_compute; reflexivity|].
  split; [vm_compute; reflexivity|].
  split; [|split; vm_compute; reflexivity].
  vm_compute. intros [H|[H|[H|[]]]]; discriminate.
Qed.

(** ** The channel: closing while a reconnection is under way *)

(** A call of [closeWebSocket] during the delay of a reconnection is
    honoured: when the delay is over, [retry] returns without a new
    socket. *)
Lemma retry_connect_closed k r w :
  webSocket (this w) = None ->
  retry_connect k r w = suspend k Returned w.
Proof. intros H. unfold retry_connect. simpl. rewrite H. reflexivity. Qed.

(** The socket of a reconnection that gets its connection is stored
    whatever the handle is by then: [newWebSocket.onopen] does not look at
    it. *)
Lemma Socket_open_reconnect_installs w s sock :
  sockets w !! s = Some sock ->
  readyState sock = CONNECTING ->
  handlers sock = ReconnectingHandlers ->
  exists w', step (Socket_open s) w = Some w' ∧
             webSocket (this w') = Some s ∧
             isWebSocketRunning w' = true.
Proof.
  intros Hl Hr Hh. eexists. split.
  - simpl. rewrite Hl. simpl. rewrite Hr, Hh. reflexivity.
  - split; reflexivity.
Qed.

(** C1, at a channel that was open, lost its connection, waited out the
    delay and constructed the socket of the reconnection: the owner calls
    [closeWebSocket] while that socket is connecting, and
    [isWebSocketRunning] is [false]; then the connection is established,
    [newWebSocket.onopen] stores the socket, and [isWebSocketRunning] is
    [true] again, the channel [Open]. *)
Theorem reconnect_completes_after_close :
  exists w_closed w_later,
    run [Call_openWebSocket None; Socket_open 0%nat; Socket_close 0%nat;
         Elapse 1000; Sleep_over 0%nat; Call_closeWebSocket]
        (initial None 0) = Some w_closed ∧
    isWebSocketRunning w_closed = false ∧
    step (Socket_open 1%nat) w_closed = Some w_later ∧
    webSocket (this w_later) = Some 1%nat ∧
    isWebSocketRunning w_later = true ∧
    connectionState w_later = Open.
Proof.
  do 2 eexists.
  split; [vm_compute; reflexivity|].
  split; [vm_compute; reflexivity|].
  split; [vm_compute; reflexivity|].
  repeat split; vm_compute; reflexivity.
Qed.

(** ** The channel: spacing of reconnections *)













Lemma run_reachable es : forall w w', reachable w -> run es w = Some w' -> reachable w'.
Proof.
  induction es as [|e es IH]; intros w w' Hw Hrun; simpl in Hrun.
  - now inversion Hrun; subst.
  - destruct (step e w) as [w1|] eqn:Hstep; simpl in Hrun; [|discriminate].
    exact (IH w1 w' (reachable_step e w w1 Hw Hstep) Hrun).
Qed.


Lemma suspend_recorded k at_ w : recorded w -> recorded (suspend k at_ w).
Proof. exact id. Qed.







(** If less than [RETRY_INTERVAL] has elapsed since the recorded start,
    [retry] sleeps for the remainder, and the platform does not wake it
    before the remainder has run out. *)
Lemma retry_delay_remainder k r w :
  now w - t r < RETRY_INTERVAL ->
  retry_delay k r w
  = suspend k (Sleeping (now w) (RETRY_INTERVAL - (now w - t r))) w.
Proof.
  intros H. unfold retry_delay. apply Z.ltb_lt in H. now rewrite H.
Qed.

Lemma Sleep_over_early k r since ms w :
  retries w !! k = Some r -> suspended r = Sleeping since ms ->
  now w < since + ms ->
  step (Sleep_over k) w = None.
Proof.
  intros Hl Hs Hn. simpl. rewrite Hl. simpl. rewrite Hs.
  unfold sleep_is_over. apply Z.leb_gt in Hn. now rewrite Hn.
Qed.



(** ** The channel: the retry hook *)

Lemma at_rest_Closed w : at_rest w -> connectionState w = Closed.
Proof.
  intros (Hws & _ & Hs). unfold connectionState. rewrite Hws.
  replace (existsb is_connecting (sockets w)) with false; [reflexivity|].
  symmetry. apply not_true_is_false. intros H.
  apply existsb_exists in H. destruct H as (sock & Hin & Hc).
  rewrite Forall_forall in Hs. apply list_elem_of_In in Hin.
  specialize (Hs sock Hin). unfold is_connecting in Hc.
  destruct (readyState sock); congruence.
Qed.

(** At rest, only a call of [openWebSocket] gets the channel going
    again. *)
Lemma at_rest_step e w w' :
  at_rest w -> is_open_call e = false -> step e w = Some w' ->
  at_rest w' ∧ length (sockets w') = length (sockets w) ∧
  reconnects w' = reconnects w.
Proof.
  intros (Hws & Hr & Hs) He Hstep.
  destruct e as [i| |i|h|h|ms|s|s err|s|s data hook|k res|k];
    simpl in Hstep; try discriminate He.
  - inversion Hstep; subst. unfold closeWebSocket. rewrite Hws.
    repeat split; assumption.
  - inversion Hstep; subst. unfold setWebSocketInterval. rewrite Hws.
    repeat split; assumption.
  - inversion Hstep; subst. repeat split; assumption.
  - inversion Hstep; subst. repeat split; assumption.
  - inversion Hstep; subst. repeat split; assumption.
  - destruct (sockets w !! s) as [sock|] eqn:Hl; simpl in Hstep; [|discriminate].
    pose proof (Forall_lookup_1 _ _ _ _ Hs Hl) as Hc. simpl in Hc.
    destruct (readyState sock); try discriminate; congruence.
  - destruct (sockets w !! s) as [sock|] eqn:Hl; simpl in Hstep; [|discriminate].
    pose proof (Forall_lookup_1 _ _ _ _ Hs Hl) as Hc. simpl in Hc.
    destruct (readyState sock); try discriminate; congruence.
  - destruct (sockets w !! s) as [sock|] eqn:Hl; simpl in Hstep; [|discriminate].
    assert (Hc : at_rest (onclose sock (update_socket s (set_readyState CLOSED) w))
                 ∧ length (sockets (onclose sock
                             (update_socket s (set_readyState CLOSED) w)))
                   = length (sockets w)
                 ∧ reconnects (onclose sock
                             (update_socket s (set_readyState CLOSED) w))
                   = reconnects w).
    { unfold onclose. simpl. rewrite Hws. simpl.
      split; [|split; [apply length_alter | reflexivity]].
      split; [exact Hws|]. split; [exact Hr|].
      apply Forall_alter; [exact Hs|]. intros x _ _. discriminate. }
    destruct (readyState sock); try discriminate;
      destruct (handlers sock); try discriminate;
      inversion Hstep; subst; exact Hc.
  - destruct (sockets w !! s) as [sock|] eqn:Hl; simpl in Hstep; [|discriminate].
    pose proof (onmessage_state w data hook) as Hm. simpl in Hm.
    destruct Hm as (Hm0 & Hm1 & Hm2 & _ & Hm4).
    assert (Hc : forall w0, (let '(w1, thrown) := onmessage data hook w in
                  match thrown with
                  | Some e => Some (emit (uncaught e) w1)
                  | None => Some w1
                  end) = Some w0 ->
                 at_rest w0 ∧ length (sockets w0) = length (sockets w) ∧
                 reconnects w0 = reconnects w).
    { destruct (onmessage data hook w) as [w1 thrown]. simpl in *.
      intros w0 H0. unfold at_rest.
      destruct thrown; inversion H0; subst; simpl;
        rewrite Hm0, Hm1, Hm2, Hm4; repeat split; assumption. }
    destruct (readyState sock); try discriminate;
      destruct (handlers sock); try discriminate; apply Hc, Hstep.
  - destruct (retries w !! k) as [r|] eqn:Hl; simpl in Hstep; [|discriminate].
    pose proof (Forall_lookup_1 _ _ _ _ Hr Hl) as Hc. simpl in Hc.
    rewrite Hc in Hstep. discriminate.
  - destruct (retries w !! k) as [r|] eqn:Hl; simpl in Hstep; [|discriminate].
    pose proof (Forall_lookup_1 _ _ _ _ Hr Hl) as Hc. simpl in Hc.
    rewrite Hc in Hstep. discriminate.
Qed.

Lemma at_rest_run es : forall w w',
  at_rest w -> no_open_call es -> run es w = Some w' ->
  at_rest w' ∧ length (sockets w') = length (sockets w) ∧
  reconnects w' = reconnects w.
Proof.
  induction es as [|e es IH]; intros w w' Hw Hes Hrun; simpl in Hrun.
  - inversion Hrun; subst. auto.
  - destruct (step e w) as [w1|] eqn:Hstep; simpl in Hrun; [|discriminate].
    inversion Hes as [|? ? He Hes']; subst.
    destruct (at_rest_step e w w1 Hw He Hstep) as (Hw1 & Hlen & Hrc).
    destruct (IH w1 w' Hw1 Hes' Hrun) as (Hw' & Hlen' & Hrc').
    split; [exact Hw'|]. split; congruence.
Qed.

(** The veto: [retry] gives up the handle and returns. *)
Lemma retry_after_hook_false k r w :
  retry_after_hook k r (Resolved (boolean false)) w
  = suspend k Returned (set_webSocket None w).
Proof. reflexivity. Qed.

Lemma veto_at_rest k w :
  only_retry k w -> at_rest (suspend k Returned (set_webSocket None w)).
Proof.
  intros [Hothers Hs]. split; [reflexivity|]. split; [|exact Hs].
  simpl. apply Forall_lookup. intros j x Hx.
  destruct (decide (j = k)) as [->|Hne].
  - rewrite list_lookup_alter_eq in Hx.
    destruct (retries w !! k); inversion Hx; reflexivity.
  - rewrite list_lookup_alter_ne in Hx by auto. eauto.
Qed.

(** Anything else: [retry] goes on to the delay, after logging what the
    hook threw. *)
Lemma retry_after_hook_other k r result w :
  result <> Resolved (boolean false) ->
  retry_after_hook k r result w
  = retry_delay k r match result with
                    | Resolved _ => w
                    | Rejected error => emit (console_error error) w
                    end.
Proof.
  intros H. unfold retry_after_hook. destruct result as [v|error]; [|reflexivity].
  destruct v as [| |[]| |]; try reflexivity. congruence.
Qed.

(** With the handle still in place, the delay of retry [k] ends in a new
    socket. *)
Lemma retry_connect_constructs k r w s :
  webSocket (this w) = Some s ->
  sockets (retry_connect k r w)
  = sockets w ++ [{| ws_url := reconnect_url (this w);
                     readyState := CONNECTING;
                     handlers := ReconnectingHandlers;
                     made_by := Some {| start := t r; construction := now w |} |}]
  ∧ this (retry_connect k r w) = this w
  ∧ now (retry_connect k r w) = now w
  ∧ output (retry_connect k r w) = console_debug (reconnect_url (this w)) :: output w
  ∧ (suspended <$> retries (retry_connect k r w) !! k) <> Some AwaitingHook
  ∧ forall since ms,
      (suspended <$> retries (retry_connect k r w) !! k) <> Some (Sleeping since ms).
Proof.
  intros H. unfold retry_connect. simpl. rewrite H. unfold reconnect_url. simpl.
  repeat split.
  - rewrite list_lookup_alter_eq. destruct (retries w !! k); discriminate.
  - intros since ms. rewrite list_lookup_alter_eq.
    destruct (retries w !! k); discriminate.
Qed.

Lemma Sleep_over_due k r since ms w :
  retries w !! k = Some r -> suspended r = Sleeping since ms ->
  since + ms <= now w ->
  step (Sleep_over k) w = Some (retry_connect k r w).
Proof.
  intros Hl Hs Hn. simpl. rewrite Hl. simpl. rewrite Hs.
  unfold sleep_is_over. apply Z.leb_le in Hn. now rewrite Hn.
Qed.

Lemma sleep_out_sleeping k r since ms w :
  retries w !! k = Some r -> suspended r = Sleeping since ms ->
  now w <= since + ms ->
  sleep_out k w = Some (retry_connect k r (set_now (since + ms) w)).
Proof.
  intros Hl Hs Hn. unfold sleep_out. rewrite Hl.
  cbn [fmap option_fmap option_map]. rewrite Hs.
  cbn [run].
  replace (step (Elapse (Z.to_N (since + ms - now w))) w)
    with (Some (set_now (since + ms) w)).
  - cbn [mbind option_bind].
    rewrite (Sleep_over_due k r since ms); [reflexivity | exact Hl | exact Hs |].
    simpl. lia.
  - simpl. rewrite Z2N.id by lia. do 2 f_equal. lia.
Qed.

Lemma sleep_out_awake k w :
  (forall since ms, (suspended <$> retries w !! k) <> Some (Sleeping since ms)) ->
  sleep_out k w = Some w.
Proof.
  intros H. unfold sleep_out.
  destruct (suspended <$> retries w !! k) as [[|since ms|]|]; try reflexivity.
  exfalso. exact (H since ms eq_refl).
Qed.

Lemma retry_delay_proceeds k r w s :
  retries w !! k = Some r ->
  webSocket (this w) = Some s ->
  exists w2,
    sleep_out k (retry_delay k r w) = Some w2 ∧
    sockets w2
    = sockets w ++ [{| ws_url := reconnect_url (this w);
                       readyState := CONNECTING;
                       handlers := ReconnectingHandlers;
                       made_by := Some {| start := t r; construction := now w2 |} |}] ∧
    this w2 = this w ∧
    t r + RETRY_INTERVAL <= now w2.
Proof.
  intros Hl Hws. unfold retry_delay.
  destruct (now w - t r <? RETRY_INTERVAL) eqn:Hd.
  - apply Z.ltb_lt in Hd.
    set (ms := RETRY_INTERVAL - (now w - t r)).
    set (w1 := suspend k (Sleeping (now w) ms) w).
    set (r1 := {| t := t r; suspended := Sleeping (now w) ms; follows := follows r |}).
    assert (Hl1 : retries w1 !! k = Some r1).
    { unfold w1, suspend. simpl. rewrite list_lookup_alter_eq, Hl. reflexivity. }
    exists (retry_connect k r1 (set_now (now w + ms) w1)).
    split.
    + apply sleep_out_sleeping; [exact Hl1 | reflexivity |].
      unfold w1, ms. simpl. lia.
    + destruct (retry_connect_constructs k r1 (set_now (now w + ms) w1) s Hws)
        as (Hs & Hthis & Hn & _).
      rewrite Hs, Hn. split; [reflexivity|]. split; [exact Hthis|].
      unfold ms. simpl. lia.
  - apply Z.ltb_ge in Hd.
    destruct (retry_connect_constructs k r w s Hws)
      as (Hs & Hthis & Hn & _ & Hnot1 & Hnot2).
    exists (retry_connect k r w). split.
    + apply sleep_out_awake, Hnot2.
    + rewrite Hs, Hn. split; [reflexivity|]. split; [exact Hthis | lia].
Qed.

(** C7. A retry waits for its hook.  If the hook resolves to exactly
    [false], the channel gives up its socket and constructs none; when
    nothing else is under way it is [Closed] and stays so, without a
    further connection attempt, until the owner calls [openWebSocket]
    again.  With any other outcome (another value, no value, an exception
    or rejection, which is logged) the retry proceeds: the handle stays,
    and once the delay is over a socket is constructed for the
    reconnection. *)
Theorem retry_hook_decides (w : World) (k : nat) (r : Retry) :
  retries w !! k = Some r ->
  suspended r = AwaitingHook ->
  (exists w',
     step (Hook_settled k (Resolved (boolean false))) w = Some w' ∧
     webSocket (this w') = None ∧
     sockets w' = sockets w ∧
     reconnects w' = reconnects w ∧
     (only_retry k w ->
      connectionState w' = Closed ∧
      forall es w'',
        no_open_call es -> run es w' = Some w'' ->
        connectionState w'' = Closed ∧
        length (sockets w'') = length (sockets w) ∧
        reconnects w'' = reconnects w)) ∧
  (forall result s,
     result <> Resolved (boolean false) ->
     webSocket (this w) = Some s ->
     exists w1 w2,
       step (Hook_settled k result) w = Some w1 ∧
       (forall error, result = Rejected error -> In (console_error error) (output w1)) ∧
       sleep_out k w1 = Some w2 ∧
       webSocket (this w2) = Some s ∧
       sockets w2
       = sockets w ++ [{| ws_url := reconnect_url (this w);
                          readyState := CONNECTING;
                          handlers := ReconnectingHandlers;
                          made_by := Some {| start := t r;
                                             construction := now w2 |} |}]).
Proof.
  intros Hl Hsusp. split.
  - exists (suspend k Returned (set_webSocket None w)).
    split; [simpl; rewrite Hl; simpl; rewrite Hsusp; reflexivity|].
    split; [reflexivity|]. split; [reflexivity|]. split; [reflexivity|].
    intros Honly. pose proof (veto_at_rest k w Honly) as Hrest.
    split; [exact (at_rest_Closed _ Hrest)|].
    intros es w'' Hes Hrun.
    destruct (at_rest_run es _ _ Hrest Hes Hrun) as (Hr & Hlen & Hrc).
    split; [exact (at_rest_Closed _ Hr)|]. split; [exact Hlen | exact Hrc].
  - intros result s Hres Hws.
    set (w0 := match result with
               | Resolved _ => w
               | Rejected error => emit (console_error error) w
               end).
    assert (Hl0 : retries w0 !! k = Some r) by (unfold w0; destruct result; exact Hl).
    assert (Hws0 : webSocket (this w0) = Some s) by (unfold w0; destruct result; exact Hws).
    assert (Hs0 : sockets w0 = sockets w) by (unfold w0; destruct result; reflexivity).
    assert (Ht0 : this w0 = this w) by (unfold w0; destruct result; reflexivity).
    destruct (retry_delay_proceeds k r w0 s Hl0 Hws0)
      as (w2 & Hout & Hsock & Hthis & _).
    exists (retry_delay k r w0), w2.
    split; [simpl; rewrite Hl; simpl; rewrite Hsusp;
            now rewrite retry_after_hook_other|].
    split; [|split; [exact Hout|]].
    + intros error ->. unfold w0, retry_delay.
      destruct (_ <? _); [left; reflexivity|].
      unfold retry_connect. simpl. rewrite Hws. simpl. right. left. reflexivity.
    + rewrite Hsock, Hs0, Hthis, Ht0. split; [exact Hws | reflexivity].
Qed.

(** The first loss of the connection after a successful [openWebSocket],
    with a hook registered: the hook is called and nothing else is under
    way. *)
Lemma retry_hook_decides_witness :
  let r := {| t := 5; suspended := AwaitingHook; follows := None |} in
  retries hook_pending !! 0%nat = Some r ∧
  only_retry 0 hook_pending ∧
  (exists w',
     step (Hook_settled 0 (Resolved (boolean false))) hook_pending = Some w' ∧
     connectionState w' = Closed ∧
     length (sockets w') = 1%nat) ∧
  (exists w1 w2,
     step (Hook_settled 0 (Resolved undefined)) hook_pending = Some w1 ∧
     sleep_out 0 w1 = Some w2 ∧
     length (sockets w2) = 2%nat).
Proof.
  intros r.
  assert (Hl : retries hook_pending !! 0%nat = Some r) by (vm_compute; reflexivity).
  assert (Honly : only_retry 0 hook_pending).
  { split.
    - intros [|[|j]] x Hx Hj; [congruence | discriminate Hx | discriminate Hx].
    - vm_compute. repeat constructor; discriminate. }
  destruct (retry_hook_decides hook_pending 0 r Hl eq_refl) as [Hveto Hgo].
  split; [exact Hl|]. split; [exact Honly|]. split.
  - destruct Hveto as (w' & Hstep & _ & Hs & _ & Hclosed).
    exists w'. split; [exact Hstep|].
    split; [exact (proj1 (Hclosed Honly))|].
    rewrite Hs. reflexivity.
  - destruct (Hgo (Resolved undefined) 0%nat) as (w1 & w2 & Hstep & _ & Hout & _ & Hs);
      [discriminate | reflexivity |].
    exists w1, w2. split; [exact Hstep|]. split; [exact Hout|].
    rewrite Hs, length_app. reflexivity.
Defined.

(** * Further properties *)

(** ** The events as a relation *)

Lemma step_Step e w w' : step e w = Some w' -> Step w w'.
Proof.
  intros Hstep.
  destruct e as [i| |i|h|h|ms|s|s err|s|s data hook|k res|k]; simpl in Hstep;
    try (inversion Hstep; subst; constructor; fail).
  - destruct (sockets w !! s) as [sock|] eqn:Hl; simpl in Hstep; [|discriminate].
    destruct (readyState sock) eqn:Hr; try discriminate.
    destruct (handlers sock) eqn:Hh; try discriminate;
      inversion Hstep; subst.
    + exact (Step_open_first w s sock Hl Hr Hh).
    + exact (Step_open_again w s sock Hl Hr Hh).
  - destruct (sockets w !! s) as [sock|] eqn:Hl; simpl in Hstep; [|discriminate].
    destruct (readyState sock) eqn:Hr; try discriminate.
    destruct (handlers sock) eqn:Hh; try discriminate;
      inversion Hstep; subst.
    + exact (Step_error_first w s sock err Hl Hr Hh).
    + exact (Step_error_again w s sock Hl Hr Hh).
  - destruct (sockets w !! s) as [sock|] eqn:Hl; simpl in Hstep; [|discriminate].
    destruct (readyState sock) eqn:Hr; try discriminate;
      destruct (handlers sock) eqn:Hh; try discriminate;
      inversion Hstep; subst;
      apply (Step_close w s sock Hl); auto.
  - destruct (sockets w !! s) as [sock|] eqn:Hl; simpl in Hstep; [|discriminate].
    assert (Hd : forall w0,
               (let '(w1, thrown) := onmessage data hook w in
                match thrown with
                | Some e => Some (emit (uncaught e) w1)
                | None => Some w1
                end) = Some w0 -> w0 = deliver (onmessage data hook w)).
    { unfold deliver. destruct (onmessage data hook w) as [w1 [e|]]; simpl;
        intros w0 H0; inversion H0; reflexivity. }
    destruct (readyState sock) eqn:Hr; try discriminate;
      destruct (handlers sock) eqn:Hh; try discriminate;
      rewrite (Hd _ Hstep);
      apply (Step_message w s sock data hook Hl); auto.
  - destruct (retries w !! k) as [r|] eqn:Hl; simpl in Hstep; [|discriminate].
    destruct (suspended r) eqn:Hs; try discriminate.
    inversion Hstep; subst. exact (Step_hook w k r res Hl Hs).
  - destruct (retries w !! k) as [r|] eqn:Hl; simpl in Hstep; [|discriminate].
    destruct (suspended r) as [|since ms|] eqn:Hs; try discriminate.
    destruct (sleep_is_over since ms (now w)) eqn:Hd; [|discriminate].
    inversion Hstep; subst. apply Z.leb_le in Hd.
    exact (Step_sleep_over w k r since ms Hl Hs Hd).
Qed.

Lemma Step_step w w' : Step w w' -> exists e, step e w = Some w'.
Proof.
  intros H. destruct H as [i| |i|h|h|ms|s sock Hl Hr Hh|s sock Hl Hr Hh
                           |s sock err Hl Hr Hh|s sock Hl Hr Hh
                           |s sock Hl Hr Hh|s sock data hook Hl Hr Hh
                           |k r res Hl Hs|k r since ms Hl Hs Hd].
  - now exists (Call_openWebSocket i).
  - now exists Call_closeWebSocket.
  - now exists (Call_setWebSocketInterval i).
  - now exists (Assign_onWebSocketRetry h).
  - now exists (Assign_onWebSocketUpdate h).
  - now exists (Elapse ms).
  - exists (Socket_open s). simpl. rewrite Hl. simpl. now rewrite Hr, Hh.
  - exists (Socket_open s). simpl. rewrite Hl. simpl. now rewrite Hr, Hh.
  - exists (Socket_error s err). simpl. rewrite Hl. simpl. now rewrite Hr, Hh.
  - exists (Socket_error s None). simpl. rewrite Hl. simpl. now rewrite Hr, Hh.
  - exists (Socket_close s). simpl. rewrite Hl. simpl.
    destruct Hr as [Hr|Hr]; now rewrite Hr, Hh.
  - exists (Socket_message s data hook). simpl. rewrite Hl. simpl.
    unfold deliver.
    destruct Hr as [Hr|Hr]; rewrite Hr, Hh;
      destruct (onmessage data hook w) as [w1 [e|]]; reflexivity.
  - exists (Hook_settled k res). simpl. rewrite Hl. simpl. now rewrite Hs.
  - exists (Sleep_over k). simpl. rewrite Hl. simpl. rewrite Hs.
    unfold sleep_is_over. apply Z.leb_le in Hd. now rewrite Hd.
Qed.

Lemma reachable_run p t0 es w :
  run es (initial p t0) = Some w -> reachable w.
Proof. apply run_reachable, reachable_initial. Qed.

(** ** The interval *)




(** ** Where the channel connects to, and what it sends *)









Lemma deliver_state w data hook :
  let w' := deliver (onmessage data hook w) in
  this w' = this w ∧ sockets w' = sockets w ∧ retries w' = retries w ∧
  now w' = now w ∧ reconnects w' = reconnects w.
Proof.
  pose proof (onmessage_state w data hook) as H. simpl in *.
  unfold deliver. destruct (onmessage data hook w) as [w1 [e|]]; exact H.
Qed.




Lemma reconnecting_reachable : reachable reconnecting.
Proof.
  apply (reachable_run None 0
           [Call_openWebSocket None; Socket_open 0%nat; Elapse 5;
            Socket_close 0%nat; Elapse 1000; Sleep_over 0%nat]).
  vm_compute. reflexivity.
Qed.



(** ** The socket the channel holds *)

Lemma held_live_lookup_alter s f (l : list WebSocket) s' :
  (forall x, handlers (f x) = handlers x) ->
  (forall x, readyState (f x) <> CONNECTING) ->
  (exists sock, l !! s' = Some sock ∧ live sock) ->
  exists sock, alter f s l !! s' = Some sock ∧ live sock.
Proof.
  intros Hh Hr (sock & Hl & Hlive & Hnc).
  destruct (decide (s = s')) as [->|Hne].
  - exists (f sock). rewrite list_lookup_alter_eq, Hl. split; [reflexivity|].
    split; [now rewrite Hh | apply Hr].
  - exists sock. rewrite list_lookup_alter_ne by exact Hne. repeat split; auto.
Qed.

Lemma update_socket_held_live s f w :
  (forall x, handlers (f x) = handlers x) ->
  (forall x, readyState (f x) <> CONNECTING) ->
  held_live w -> held_live (update_socket s f w).
Proof.
  intros Hh Hr [Hheld Hall]. split.
  - simpl. destruct (webSocket (this w)) as [s'|]; [|exact I].
    now apply held_live_lookup_alter.
  - simpl. apply Forall_alter; [exact Hall|]. intros x _ _ _. apply Hr.
Qed.

Lemma held_live_frame w w' :
  webSocket (this w') = webSocket (this w) -> sockets w' = sockets w ->
  held_live w -> held_live w'.
Proof. unfold held_live. intros -> ->. auto. Qed.

Ltac same_sockets H := eapply held_live_frame; [| | exact H]; reflexivity.

Lemma new_WebSocket_held_live url h by_ w :
  h <> LiveHandlers -> held_live w -> held_live (new_WebSocket url h by_ w).
Proof.
  intros Hh [Hheld Hall]. split.
  - simpl. destruct (webSocket (this w)) as [s|]; [|exact I].
    destruct Hheld as (sock & Hl & Hlive). exists sock. split; [|exact Hlive].
    now apply lookup_app_l_Some.
  - simpl. apply Forall_app. split; [exact Hall|].
    constructor; [|constructor]. simpl. congruence.
Qed.

Lemma handle_dropped_held_live w w' :
  webSocket (this w') = None -> sockets w' = sockets w ->
  held_live w -> held_live w'.
Proof. unfold held_live. intros -> -> [_ H]. auto. Qed.

Lemma retry_connect_held_live k r w : held_live w -> held_live (retry_connect k r w).
Proof.
  intros Hw. unfold retry_connect.
  assert (Hw1 : held_live (suspend k Returned w)) by same_sockets Hw.
  destruct (webSocket (this (suspend k Returned w))) eqn:Hws; [|exact Hw1].
  apply new_WebSocket_held_live; [discriminate|]. same_sockets Hw.
Qed.

Lemma retry_delay_held_live k r w : held_live w -> held_live (retry_delay k r w).
Proof.
  intros Hw. unfold retry_delay. destruct (_ <? _).
  - same_sockets Hw.
  - now apply retry_connect_held_live.
Qed.

Lemma retry_held_live after w : held_live w -> held_live (retry after w).
Proof.
  intros Hw. unfold retry. set (w1 := set_retries _ w).
  assert (Hw1 : held_live w1) by same_sockets Hw.
  destruct (onWebSocketRetry (this w1)).
  - same_sockets Hw1.
  - now apply retry_delay_held_live.
Qed.

Lemma open_held_live s sock w w' :
  sockets w !! s = Some sock ->
  webSocket (this w') = Some s -> sockets w' = alter opened s (sockets w) ->
  held_live w -> held_live w'.
Proof.
  intros Hl Hws Hs [_ Hall]. unfold held_live. rewrite Hws, Hs. split.
  - exists (opened sock). rewrite list_lookup_alter_eq, Hl.
    split; [reflexivity|]. split; [reflexivity | discriminate].
  - apply Forall_alter; [exact Hall|]. intros x _ _ _. discriminate.
Qed.

Lemma Step_held_live w w' : held_live w -> Step w w' -> held_live w'.
Proof.
  intros Hw H.
  destruct H as [i| |i|h|h|ms|s sock Hl Hr Hh|s sock Hl Hr Hh
                 |s sock err Hl Hr Hh|s sock Hl Hr Hh
                 |s sock Hl Hr Hh|s sock data hook Hl Hr Hh
                 |k r res Hl Hs|k r since ms Hl Hs Hd].
  - unfold openWebSocket. destruct (webSocket (this w)) eqn:Hws; [exact Hw|].
    apply new_WebSocket_held_live; [discriminate|]. same_sockets Hw.
  - unfold closeWebSocket. destruct (webSocket (this w)) as [s|]; [|exact Hw].
    destruct Hw as [_ Hall]. split; [exact I|]. simpl.
    apply Forall_alter; [exact Hall|].
    intros x _ Hx. destruct (readyState x) eqn:Hrx; simpl; intros Hlive;
      try discriminate; rewrite Hrx; discriminate.
  - unfold setWebSocketInterval.
    destruct (webSocket (this w)) as [s|] eqn:Hws; [|exact Hw].
    destruct i; simpl; same_sockets Hw.
  - same_sockets Hw.
  - same_sockets Hw.
  - same_sockets Hw.
  - now apply (open_held_live s sock w).
  - now apply (open_held_live s sock w).
  - assert (H1 : held_live (update_socket s (set_readyState CLOSED) w))
      by (apply update_socket_held_live; [reflexivity | discriminate | exact Hw]).
    same_sockets H1.
  - apply retry_held_live, update_socket_held_live;
      [reflexivity | discriminate | exact Hw].
  - unfold onclose.
    assert (H1 : held_live (update_socket s (set_readyState CLOSED) w))
      by (apply update_socket_held_live; [reflexivity | discriminate | exact Hw]).
    destruct (webSocket (this (update_socket s (set_readyState CLOSED) w)));
      [|exact H1].
    now apply retry_held_live.
  - destruct (deliver_state w data hook) as (Ht & Hsock & _).
    eapply held_live_frame; [| |exact Hw]; [now rewrite Ht | exact Hsock].
  - unfold retry_after_hook. destruct res as [v|error].
    + destruct (strictly_false v).
      * now apply (handle_dropped_held_live w).
      * now apply retry_delay_held_live.
    + apply retry_delay_held_live. same_sockets Hw.
  - now apply retry_connect_held_live.
Qed.

Lemma reachable_held_live w : reachable w -> held_live w.
Proof.
  induction 1 as [p t0|e w w' _ IH Hstep].
  - split; [exact I | constructor].
  - exact (Step_held_live w w' IH (step_Step e w w' Hstep)).
Qed.

(** X9. In every world the channel can reach, the socket the channel
    holds is one the program has constructed, it has had its connection
    opened (it carries the live handlers), and it is not connecting any
    more: [setWebSocketInterval] never calls [send] on a connecting
    socket, and [closeWebSocket] never closes one. *)
Theorem held_socket_live (w : World) (s : nat) :
  reachable w ->
  webSocket (this w) = Some s ->
  exists sock,
    sockets w !! s = Some sock ∧
    handlers sock = LiveHandlers ∧
    readyState sock <> CONNECTING.
Proof.
  intros Hw Hs. destruct (reachable_held_live w Hw) as [Hheld _].
  rewrite Hs in Hheld. destruct Hheld as (sock & Hl & Hh & Hr). eauto.
Qed.

Lemma held_socket_live_witness :
  reachable reconnecting ∧ webSocket (this reconnecting) = Some 0%nat ∧
  exists sock,
    sockets reconnecting !! 0%nat = Some sock ∧
    handlers sock = LiveHandlers ∧
    readyState sock <> CONNECTING.
Proof.
  split; [exact reconnecting_reachable|]. split; [reflexivity|].
  apply (held_socket_live reconnecting 0 reconnecting_reachable).
  reflexivity.
Defined.

(** ** The addresses of the service *)

Lemma retry_connect_addresses k r w :
  addresses (this (retry_connect k r w)) = addresses (this w).
Proof.
  unfold retry_connect.
  destruct (webSocket (this (suspend k Returned w))); reflexivity.
Qed.

Lemma retry_delay_addresses k r w :
  addresses (this (retry_delay k r w)) = addresses (this w).
Proof.
  unfold retry_delay. destruct (_ <? _); [reflexivity|].
  apply retry_connect_addresses.
Qed.

Lemma retry_addresses after w :
  addresses (this (retry after w)) = addresses (this w).
Proof.
  unfold retry. set (w1 := set_retries _ w).
  destruct (onWebSocketRetry (this w1)); [reflexivity|].
  now rewrite retry_delay_addresses.
Qed.

Lemma Step_addresses w w' : Step w w' -> addresses (this w') = addresses (this w).
Proof.
  intros H.
  destruct H as [i| |i|h|h|ms|s sock Hl Hr Hh|s sock Hl Hr Hh
                 |s sock err Hl Hr Hh|s sock Hl Hr Hh
                 |s sock Hl Hr Hh|s sock data hook Hl Hr Hh
                 |k r res Hl Hs|k r since ms Hl Hs Hd]; try reflexivity.
  - unfold openWebSocket. destruct (webSocket (this w)); reflexivity.
  - unfold closeWebSocket. destruct (webSocket (this w)); reflexivity.
  - unfold setWebSocketInterval.
    destruct (webSocket (this w)); [destruct i|]; reflexivity.
  - now rewrite retry_addresses.
  - unfold onclose.
    destruct (webSocket (this (update_socket s (set_readyState CLOSED) w)));
      [|reflexivity].
    now rewrite retry_addresses.
  - destruct (deliver_state w data hook) as (Ht & _). now rewrite Ht.
  - unfold retry_after_hook. destruct res as [v|error].
    + destruct (strictly_false v); [reflexivity|]. apply retry_delay_addresses.
    + now rewrite retry_delay_addresses.
  - apply retry_connect_addresses.
Qed.

Lemma run_addresses es : forall w w',
  run es w = Some w' -> addresses (this w') = addresses (this w).
Proof.
  induction es as [|e es IH]; intros w w' Hrun; simpl in Hrun.
  - now inversion Hrun.
  - destruct (step e w) as [w1|] eqn:Hstep; simpl in Hrun; [|discriminate].
    rewrite (IH w1 w' Hrun). exact (Step_addresses w w1 (step_Step e w w1 Hstep)).
Qed.

(** X12. The three addresses are derived from the prefix once, by the
    constructor, and nothing that happens to the service afterwards
    changes them: the card list is at [/], the version at [/version] and
    the WebSocket at [/ws] of the same host, with the scheme [ws:] for a
    prefix of scheme [http:], [wss:] for [https:], and the scheme of the
    prefix otherwise. *)
Theorem service_addresses (p : option URL) (t0 : Z) (es : list Event) (w : World) :
  run es (initial p t0) = Some w ->
  let prefix := default default_urlPrefix p in
  urlPrefix (this w) = prefix ∧
  apiGetCardList (this w) = new_URL "/" prefix ∧
  apiGetVersion (this w) = new_URL "/version" prefix ∧
  apiWebsocket (this w)
  = {| protocol := upgraded (protocol prefix); host := host prefix;
       pathname := "/ws"; searchParams := [] |}.
Proof.
  intros Hrun prefix. apply run_addresses in Hrun.
  unfold addresses in Hrun. simpl in Hrun. fold prefix in Hrun.
  injection Hrun as H1 H2 H3 H4.
  split; [exact H1|]. split; [exact H2|]. split; [exact H3|].
  rewrite H4. unfold upgraded.
  destruct (String.eqb (protocol prefix) "http:"); [reflexivity|].
  destruct (String.eqb (protocol prefix) "https:"); reflexivity.
Qed.

Lemma service_addresses_witness :
  let w := reconnecting in
  apiGetVersion (this w)
  = {| protocol := "http:"; host := "127.0.0.1:12345";
       pathname := "/version"; searchParams := [] |} ∧
  apiWebsocket (this w)
  = {| protocol := "ws:"; host := "127.0.0.1:12345";
       pathname := "/ws"; searchParams := [] |}.
Proof.
  assert (Hrun : run [Call_openWebSocket None; Socket_open 0%nat; Elapse 5;
                      Socket_close 0%nat; Elapse 1000; Sleep_over 0%nat]
                   (initial None 0) = Some reconnecting)
    by (vm_compute; reflexivity).
  destruct (service_addresses None 0 _ reconnecting Hrun) as (_ & _ & Hv & Hw).
  split; [exact Hv | exact Hw].
Defined.

(** ** The first connection *)

Lemma rejection_NetworkError error url :
  instanceof_NetworkError (rejection error url) = true ∧
  instanceof_TimeoutError (rejection error url) = false.
Proof.
  unfold rejection. destruct error as [e|]; [|split; reflexivity].
  destruct (has_name_and_message e); [|split; reflexivity].
  destruct e as [n m|[] n m|d|m|m|m]; split; reflexivity.
Qed.

(** X3. When the first connection of [openWebSocket] cannot be
    established, the promise of the call is rejected with a
    [NetworkError] that is no [TimeoutError] (naming the address when the
    event carries no error), and that is all: the handle stays as it is,
    no [retry] is started and no socket constructed. *)
Theorem first_connection_fails (w : World) (s : nat) (sock : WebSocket)
    (error : option Thrown) :
  sockets w !! s = Some sock ->
  readyState sock = CONNECTING ->
  handlers sock = OpeningHandlers ->
  exists w' e,
    step (Socket_error s error) w = Some w' ∧
    output w' = openWebSocket_rejected s e :: output w ∧
    instanceof_NetworkError e = true ∧
    instanceof_TimeoutError e = false ∧
    (error = None -> e = NetworkError (CannotConnect (ws_url sock))) ∧
    this w' = this w ∧
    retries w' = retries w ∧
    reconnects w' = reconnects w ∧
    sockets w' = alter (set_readyState CLOSED) s (sockets w).
Proof.
  intros Hl Hr Hh.
  exists (emit (openWebSocket_rejected s (rejection error (ws_url sock)))
            (update_socket s (set_readyState CLOSED) w)),
         (rejection error (ws_url sock)).
  split; [simpl; rewrite Hl; simpl; rewrite Hr, Hh; reflexivity|].
  split; [reflexivity|].
  destruct (rejection_NetworkError error (ws_url sock)) as [Hn Ht].
  split; [exact Hn|]. split; [exact Ht|].
  split; [intros ->; reflexivity|]. repeat split.
Qed.

Lemma first_connection_fails_witness :
  exists w',
    step (Socket_error 0 None) just_called = Some w' ∧
    isWebSocketRunning w' = false ∧ retries w' = [] ∧
    length (sockets w') = 1%nat.
Proof.
  destruct (first_connection_fails just_called 0
              {| ws_url := address_of (apiWebsocket (constructor None)) (Some 3);
                 readyState := CONNECTING; handlers := OpeningHandlers;
                 made_by := None |} None)
    as (w' & e & Hstep & _ & _ & _ & _ & Hthis & Hretries & _ & Hsockets);
    try reflexivity.
  exists w'. split; [exact Hstep|].
  unfold isWebSocketRunning. rewrite Hthis, Hretries, Hsockets.
  repeat split.
Defined.

(** ** Changing the interval *)

(** X4. On a channel that holds a socket, [setWebSocketInterval] with a
    number sends the clamped number over that socket, returns [true], and
    the next reconnection goes to the address with that interval; with
    [undefined] it sends nothing, returns [false], and the next
    reconnection goes to the address without the parameter. *)
Theorem setWebSocketInterval_then_reconnect (w : World) (s : nat)
    (interval : option Q) (k : nat) (r : Retry) :
  webSocket (this w) = Some s ->
  let sent := fst (setWebSocketInterval interval w) in
  let w' := snd (setWebSocketInterval interval w) in
  let i := option_map clamp_interval interval in
  sent = match interval with Some _ => true | None => false end ∧
  output w' = match i with
              | Some i => send_called s i :: output w
              | None => output w
              end ∧
  webSocketInterval (this w') = i ∧
  webSocket (this w') = Some s ∧
  ws_url <$> last (sockets (retry_connect k r w'))
  = Some (address_of (apiWebsocket (this w)) i).
Proof.
  intros Hs. unfold setWebSocketInterval. rewrite Hs.
  destruct interval as [q|]; simpl; (repeat split; try assumption);
    unfold retry_connect; simpl; rewrite Hs; simpl;
    rewrite last_snoc; reflexivity.
Qed.

Lemma setWebSocketInterval_then_reconnect_witness :
  fst (setWebSocketInterval (Some (59 # 10)) just_opened) = true ∧
  ws_url <$> last (sockets (retry_connect 0
                              {| t := 0; suspended := Returned; follows := None |}
                              (snd (setWebSocketInterval (Some (59 # 10)) just_opened))))
  = Some {| protocol := "ws:"; host := "127.0.0.1:12345";
            pathname := "/ws"; searchParams := [("interval", 5)] |}.
Proof.
  destruct (setWebSocketInterval_then_reconnect just_opened 0 (Some (59 # 10)) 0
              {| t := 0; suspended := Returned; follows := None |} eq_refl)
    as (Hsent & _ & _ & _ & Hurl).
  split; [exact Hsent | exact Hurl].
Defined.

(** ** Closing *)

Lemma closeWebSocket_at_rest w :
  Forall (fun r => suspended r = Returned) (retries w) ->
  Forall (fun sock => readyState sock <> CONNECTING) (sockets w) ->
  at_rest (closeWebSocket w).
Proof.
  intros Hr Hs. unfold closeWebSocket.
  destruct (webSocket (this w)) as [s|] eqn:Hws.
  - split; [reflexivity|]. split; [exact Hr|]. simpl.
    apply Forall_alter; [exact Hs|].
    intros x _ Hx. destruct (readyState x) eqn:Hrx; simpl;
      try discriminate; rewrite Hrx; discriminate.
  - split; [exact Hws|]. split; assumption.
Qed.

(** X5. [closeWebSocket] on a channel that holds a socket closes that
    socket with code [1000] and gives up the handle.  When no [retry] is
    suspended and no socket is connecting, that is final: whatever the
    platform delivers afterwards (the close event of the socket
    included), the channel stays [Closed] and constructs no socket, until
    the owner calls [openWebSocket] again. *)
Theorem closeWebSocket_final (w : World) (s : nat) :
  webSocket (this w) = Some s ->
  Forall (fun r => suspended r = Returned) (retries w) ->
  Forall (fun sock => readyState sock <> CONNECTING) (sockets w) ->
  output (closeWebSocket w) = close_called s 1000 :: output w ∧
  forall es w',
    no_open_call es -> run es (closeWebSocket w) = Some w' ->
    connectionState w' = Closed ∧
    isWebSocketRunning w' = false ∧
    length (sockets w') = length (sockets w) ∧
    reconnects w' = reconnects w.
Proof.
  intros Hs Hr Hc. split.
  - unfold closeWebSocket. rewrite Hs. reflexivity.
  - intros es w' Hes Hrun.
    pose proof (closeWebSocket_at_rest w Hr Hc) as Hrest.
    destruct (at_rest_run es _ _ Hrest Hes Hrun) as (Hrest' & Hlen & Hrc).
    split; [exact (at_rest_Closed _ Hrest')|].
    split; [unfold isWebSocketRunning; destruct Hrest' as [-> _]; reflexivity|].
    split.
    + rewrite Hlen. unfold closeWebSocket. rewrite Hs. simpl.
      apply length_alter.
    + rewrite Hrc. unfold closeWebSocket. rewrite Hs. reflexivity.
Qed.

Lemma closeWebSocket_final_witness :
  exists w',
    run [Socket_message 0 None ReturnsValue; Socket_close 0; Elapse 5000]
        (closeWebSocket just_opened) = Some w' ∧
    connectionState w' = Closed ∧ length (sockets w') = 1%nat.
Proof.
  assert (Hrun : exists w',
             run [Socket_message 0%nat None ReturnsValue; Socket_close 0%nat;
                  Elapse 5000] (closeWebSocket just_opened) = Some w')
    by (eexists; vm_compute; reflexivity).
  destruct Hrun as [w' Hrun]. exists w'. split; [exact Hrun|].
  destruct (closeWebSocket_final just_opened 0) as [_ H].
  - reflexivity.
  - constructor.
  - vm_compute. repeat constructor; discriminate.
  - assert (Hes : no_open_call [Socket_message 0%nat None ReturnsValue;
                                Socket_close 0%nat; Elapse 5000])
      by (repeat constructor).
    destruct (H _ w' Hes Hrun) as (Hc & _ & Hlen & _).
    split; [exact Hc | exact Hlen].
Defined.

(** A retry that finds the handle gone returns, and with nothing else
    under way the channel is at rest. *)
Lemma retry_connect_at_rest k r w :
  webSocket (this w) = None -> only_retry k w ->
  at_rest (retry_connect k r w).
Proof.
  intros Hws Honly. rewrite (retry_connect_closed k r w Hws).
  destruct Honly as [Hothers Hs]. split; [exact Hws|]. split; [|exact Hs].
  simpl. apply Forall_lookup. intros j x Hx.
  destruct (decide (j = k)) as [->|Hne].
  - rewrite list_lookup_alter_eq in Hx.
    destruct (retries w !! k); inversion Hx; reflexivity.
  - rewrite list_lookup_alter_ne in Hx by auto. eauto.
Qed.

Lemma closeWebSocket_only_retry k w :
  only_retry k w -> only_retry k (closeWebSocket w).
Proof.
  intros [Hothers Hs]. unfold closeWebSocket.
  destruct (webSocket (this w)); [|split; assumption].
  split; [exact Hothers|]. simpl. apply Forall_alter; [exact Hs|].
  intros x _ Hx. destruct (readyState x) eqn:Hrx; simpl;
    try discriminate; rewrite Hrx; discriminate.
Qed.

Lemma closeWebSocket_frame w :
  webSocket (this (closeWebSocket w)) = None ∧
  retries (closeWebSocket w) = retries w ∧
  now (closeWebSocket w) = now w ∧
  reconnects (closeWebSocket w) = reconnects w ∧
  length (sockets (closeWebSocket w)) = length (sockets w).
Proof.
  unfold closeWebSocket. destruct (webSocket (this w)) eqn:Hws; simpl.
  - repeat split. apply length_alter.
  - repeat split. exact Hws.
Qed.

(** X13. A call of [closeWebSocket] during the delay of a reconnection
    cancels the reconnection: when the [sleep] is over, [retry] finds the
    handle gone and returns; no socket is constructed, and with nothing
    else under way the channel is at rest, [Closed]. *)
Theorem close_during_delay (w : World) (k : nat) (r : Retry) (since ms : Z)
    (wait : N) :
  retries w !! k = Some r ->
  suspended r = Sleeping since ms ->
  only_retry k w ->
  since + ms <= now w + Z.of_N wait ->
  exists w',
    run [Call_closeWebSocket; Elapse wait; Sleep_over k] w = Some w' ∧
    at_rest w' ∧
    connectionState w' = Closed ∧
    length (sockets w') = length (sockets w) ∧
    reconnects w' = reconnects w.
Proof.
  intros Hl Hsusp Honly Hdue.
  destruct (closeWebSocket_frame w) as (Hws & Hret & Hnow & Hrc & Hlen).
  set (w1 := set_now (now (closeWebSocket w) + Z.of_N wait) (closeWebSocket w)).
  assert (Honly1 : only_retry k w1)
    by exact (closeWebSocket_only_retry k w Honly).
  exists (retry_connect k r w1).
  assert (Hrest : at_rest (retry_connect k r w1))
    by (apply retry_connect_at_rest; [exact Hws | exact Honly1]).
  split.
  - cbn [run]. change (step Call_closeWebSocket w) with (Some (closeWebSocket w)).
    cbn [mbind option_bind].
    change (step (Elapse wait) (closeWebSocket w)) with (Some w1).
    cbn [mbind option_bind].
    rewrite (Sleep_over_due k r since ms w1); [reflexivity | | exact Hsusp |].
    + unfold w1. simpl. now rewrite Hret.
    + unfold w1. simpl. rewrite Hnow. exact Hdue.
  - split; [exact Hrest|]. split; [exact (at_rest_Closed _ Hrest)|].
    rewrite (retry_connect_closed k r w1 Hws). simpl. split; assumption.
Qed.

Lemma close_during_delay_witness :
  exists w',
    run [Call_closeWebSocket; Elapse 1000; Sleep_over 0] in_delay = Some w' ∧
    connectionState w' = Closed ∧ length (sockets w') = 1%nat.
Proof.
  destruct (close_during_delay in_delay 0
              {| t := 5; suspended := Sleeping 5 1000; follows := None |}
              5 1000 1000)
    as (w' & Hrun & _ & Hc & Hlen & _).
  - reflexivity.
  - reflexivity.
  - split.
    + intros [|[|j]] x Hx Hj; [congruence | discriminate Hx | discriminate Hx].
    + vm_compute. repeat constructor; discriminate.
  - vm_compute. discriminate.
  - exists w'. split; [exact Hrun|]. split; [exact Hc | exact Hlen].
Defined.

(** X14. The same while the retry hook is being awaited: whatever the
    hook settles to after [closeWebSocket], the reconnection is not made;
    [retry] returns at the latest when its delay is over, no socket is
    constructed, and with nothing else under way the channel is at rest,
    [Closed]. *)
Theorem close_during_hook (w : World) (k : nat) (r : Retry)
    (result : Settled Value) :
  retries w !! k = Some r ->
  suspended r = AwaitingHook ->
  only_retry k w ->
  exists w1 w2,
    run [Call_closeWebSocket; Hook_settled k result] w = Some w1 ∧
    sleep_out k w1 = Some w2 ∧
    at_rest w2 ∧
    connectionState w2 = Closed ∧
    length (sockets w2) = length (sockets w) ∧
    reconnects w2 = reconnects w.
Proof.
  intros Hl Hsusp Honly.
  destruct (closeWebSocket_frame w) as (Hws & Hret & Hnow & Hrc & Hlen).
  pose proof (closeWebSocket_only_retry k w Honly) as Honly0.
  set (w0 := closeWebSocket w) in *.
  assert (Hstep : run [Call_closeWebSocket; Hook_settled k result] w
                  = Some (retry_after_hook k r result w0)).
  { cbn [run]. change (step Call_closeWebSocket w) with (Some w0).
    cbn [mbind option_bind]. simpl. rewrite Hret, Hl. simpl.
    now rewrite Hsusp. }
  assert (Hend : forall w1,
             webSocket (this w1) = None -> only_retry k w1 ->
             retries w1 !! k = Some r ->
             length (sockets w1) = length (sockets w) ->
             reconnects w1 = reconnects w ->
             exists w2, sleep_out k (retry_delay k r w1) = Some w2 ∧
                        at_rest w2 ∧ length (sockets w2) = length (sockets w) ∧
                        reconnects w2 = reconnects w).
  { intros w1 Hws1 Honly1 Hl1 Hlen1 Hrc1. unfold retry_delay.
    destruct (now w1 - t r <? RETRY_INTERVAL) eqn:Hd.
    - apply Z.ltb_lt in Hd.
      set (ms := RETRY_INTERVAL - (now w1 - t r)).
      set (r1 := {| t := t r; suspended := Sleeping (now w1) ms;
                    follows := follows r |}).
      set (w1s := suspend k (Sleeping (now w1) ms) w1).
      assert (Hl1s : retries w1s !! k = Some r1)
        by (unfold w1s; simpl; rewrite list_lookup_alter_eq, Hl1; reflexivity).
      assert (Honly1s : only_retry k (set_now (now w1 + ms) w1s)).
      { destruct Honly1 as [Hothers Hs]. split; [|exact Hs].
        intros j x Hx Hj. simpl in Hx.
        rewrite list_lookup_alter_ne in Hx by auto. eauto. }
      exists (retry_connect k r1 (set_now (now w1 + ms) w1s)).
      split; [apply sleep_out_sleeping; [exact Hl1s | reflexivity |];
              unfold w1s, ms; simpl; lia|].
      split; [apply retry_connect_at_rest; [exact Hws1 | exact Honly1s]|].
      rewrite (retry_connect_closed k r1 (set_now (now w1 + ms) w1s) Hws1).
      simpl. split; assumption.
    - exists (retry_connect k r w1).
      rewrite (retry_connect_closed k r w1 Hws1).
      split.
      + apply sleep_out_awake. intros since ms. simpl.
        rewrite list_lookup_alter_eq, Hl1. discriminate.
      + rewrite <- (retry_connect_closed k r w1 Hws1).
        split; [apply retry_connect_at_rest; assumption|].
        rewrite (retry_connect_closed k r w1 Hws1). simpl. split; assumption. }
  assert (Hfin : exists w2, sleep_out k (retry_after_hook k r result w0) = Some w2 ∧
                            at_rest w2 ∧ length (sockets w2) = length (sockets w) ∧
                            reconnects w2 = reconnects w).
  { unfold retry_after_hook. destruct result as [v|error].
    - destruct (strictly_false v).
      + exists (suspend k Returned (set_webSocket None w0)). split.
        * apply sleep_out_awake. intros since ms. simpl.
          rewrite list_lookup_alter_eq, Hret, Hl. discriminate.
        * split; [exact (veto_at_rest k w0 Honly0)|]. simpl. split; assumption.
      + apply Hend; try assumption. now rewrite Hret.
    - apply Hend; try assumption. simpl. now rewrite Hret. }
  destruct Hfin as (w2 & Hout & Hrest & Hlen2 & Hrc2).
  exists (retry_after_hook k r result w0), w2.
  split; [exact Hstep|]. split; [exact Hout|]. split; [exact Hrest|].
  split; [exact (at_rest_Closed _ Hrest)|]. split; assumption.
Qed.

Lemma close_during_hook_witness :
  exists w1 w2,
    run [Call_closeWebSocket; Hook_settled 0 (Resolved (boolean true))]
        hook_pending = Some w1 ∧
    sleep_out 0 w1 = Some w2 ∧
    connectionState w2 = Closed ∧ length (sockets w2) = 1%nat.
Proof.
  destruct (close_during_hook hook_pending 0
              {| t := 5; suspended := AwaitingHook; follows := None |}
              (Resolved (boolean true)))
    as (w1 & w2 & Hrun & Hout & _ & Hc & Hlen & _).
  - reflexivity.
  - reflexivity.
  - split.
    + intros [|[|j]] x Hx Hj; [congruence | discriminate Hx | discriminate Hx].
    + vm_compute. repeat constructor; discriminate.
  - exists w1, w2. split; [exact Hrun|]. split; [exact Hout|].
    split; [exact Hc | exact Hlen].
Defined.

(** ** Reconnecting *)

(** Without a retry hook, a call of [retry] on a channel that keeps its
    handle sleeps for the whole [RETRY_INTERVAL] and then constructs the
    socket of the reconnection. *)
Lemma retry_proceeds after w s :
  onWebSocketRetry (this w) = None ->
  webSocket (this w) = Some s ->
  exists w2,
    sleep_out (length (retries w)) (retry after w) = Some w2 ∧
    now w2 = now w + RETRY_INTERVAL ∧
    this w2 = this w ∧
    sockets w2
    = sockets w ++ [{| ws_url := reconnect_url (this w);
                       readyState := CONNECTING;
                       handlers := ReconnectingHandlers;
                       made_by := Some {| start := now w;
                                          construction := now w + RETRY_INTERVAL |} |}] ∧
    reconnects w2
    = {| previous := after;
         current := {| start := now w;
                       construction := now w + RETRY_INTERVAL |} |}
      :: reconnects w.
Proof.
  intros Hhook Hws. unfold retry.
  set (k := length (retries w)).
  set (r := {| t := now w; suspended := AwaitingHook; follows := after |}).
  set (w1 := set_retries (retries w ++ [r]) w).
  change (onWebSocketRetry (this w1)) with (onWebSocketRetry (this w)).
  rewrite Hhook. unfold retry_delay.
  change (now w1 - t r) with (now w - now w). rewrite Z.sub_diag. simpl (0 <? _).
  set (r1 := {| t := now w; suspended := Sleeping (now w) (RETRY_INTERVAL - 0);
                follows := after |}).
  set (w1s := suspend k (Sleeping (now w1) (RETRY_INTERVAL - 0)) w1).
  assert (Hl : retries w1s !! k = Some r1).
  { unfold w1s, w1, k. simpl. rewrite list_lookup_alter_eq.
    rewrite lookup_app_r by lia. rewrite Nat.sub_diag. reflexivity. }
  exists (retry_connect k r1 (set_now (now w + (RETRY_INTERVAL - 0)) w1s)).
  split; [apply sleep_out_sleeping; [exact Hl | reflexivity |];
          unfold w1s, w1; simpl; unfold RETRY_INTERVAL; lia|].
  unfold retry_connect. simpl. rewrite Hws. simpl.
  unfold reconnect_url, RETRY_INTERVAL. rewrite Z.sub_0_r.
  repeat split.
Qed.

(** X6. When the connection of the held socket is lost and no retry hook
    is registered, the channel recovers by itself: [retry] sleeps for
    1000 ms, then constructs a socket to the address with the current
    interval; when that socket opens it becomes the socket the channel
    holds, and the channel is [Open] again. *)
Theorem reconnects_after_drop (w : World) (s held : nat) (sock : WebSocket) :
  onWebSocketRetry (this w) = None ->
  webSocket (this w) = Some held ->
  sockets w !! s = Some sock ->
  readyState sock = OPEN ∨ readyState sock = CLOSING ->
  handlers sock = LiveHandlers ->
  let n := length (sockets w) in
  exists w1 w2 w3,
    step (Socket_close s) w = Some w1 ∧
    sleep_out (length (retries w)) w1 = Some w2 ∧
    now w2 = now w + 1000 ∧
    sockets w2 !! n
    = Some {| ws_url := reconnect_url (this w);
              readyState := CONNECTING;
              handlers := ReconnectingHandlers;
              made_by := Some {| start := now w; construction := now w + 1000 |} |} ∧
    step (Socket_open n) w2 = Some w3 ∧
    webSocket (this w3) = Some n ∧
    connectionState w3 = Open.
Proof.
  intros Hhook Hws Hl Hr Hh n.
  set (w0 := update_socket s (set_readyState CLOSED) w).
  assert (Hstep : step (Socket_close s) w = Some (retry (made_by sock) w0)).
  { simpl. rewrite Hl. simpl. unfold onclose.
    destruct Hr as [Hr|Hr]; rewrite Hr, Hh; simpl; rewrite Hws; reflexivity. }
  destruct (retry_proceeds (made_by sock) w0 held Hhook Hws)
    as (w2 & Hout & Hnow & Hthis & Hsock & _).
  assert (Hn : length (sockets w0) = n) by (unfold w0; simpl; apply length_alter).
  assert (Hnew : sockets w2 !! n
                 = Some {| ws_url := reconnect_url (this w);
                           readyState := CONNECTING;
                           handlers := ReconnectingHandlers;
                           made_by := Some {| start := now w;
                                              construction := now w + 1000 |} |}).
  { rewrite Hsock, lookup_app_r by lia. rewrite Hn, Nat.sub_diag. reflexivity. }
  exists (retry (made_by sock) w0), w2,
         (set_webSocket (Some n) (update_socket n opened w2)).
  split; [exact Hstep|]. split; [exact Hout|]. split; [exact Hnow|].
  split; [exact Hnew|].
  split; [simpl; rewrite Hnew; reflexivity|]. split; [reflexivity|].
  unfold connectionState. simpl.
  rewrite list_lookup_alter_eq, Hnew. reflexivity.
Qed.

Lemma reconnects_after_drop_witness :
  exists w1 w2 w3,
    step (Socket_close 0) just_opened = Some w1 ∧
    sleep_out 0 w1 = Some w2 ∧
    step (Socket_open 1) w2 = Some w3 ∧
    webSocket (this w3) = Some 1%nat ∧
    connectionState w3 = Open.
Proof.
  destruct (reconnects_after_drop just_opened 0 0
              {| ws_url := address_of (apiWebsocket (constructor None)) (Some 3);
                 readyState := OPEN; handlers := LiveHandlers; made_by := None |})
    as (w1 & w2 & w3 & H1 & H2 & _ & _ & H3 & H4 & H5);
    try reflexivity.
  - left. reflexivity.
  - exists w1, w2, w3. repeat split; assumption.
Defined.

(** X7. A reconnection that fails is tried again, without bound: when the
    socket of a reconnection cannot connect and no retry hook is
    registered, the channel keeps its handle, sleeps for another 1000 ms
    and constructs the next socket, recorded as the successor of the one
    that failed. *)
Theorem failed_reconnection_retried (w : World) (s held : nat)
    (sock : WebSocket) (error : option Thrown) :
  onWebSocketRetry (this w) = None ->
  webSocket (this w) = Some held ->
  sockets w !! s = Some sock ->
  readyState sock = CONNECTING ->
  handlers sock = ReconnectingHandlers ->
  exists w1 w2,
    step (Socket_error s error) w = Some w1 ∧
    sleep_out (length (retries w)) w1 = Some w2 ∧
    now w2 = now w + 1000 ∧
    webSocket (this w2) = Some held ∧
    sockets w2
    = alter (set_readyState CLOSED) s (sockets w)
      ++ [{| ws_url := reconnect_url (this w);
             readyState := CONNECTING;
             handlers := ReconnectingHandlers;
             made_by := Some {| start := now w; construction := now w + 1000 |} |}] ∧
    reconnects w2
    = {| previous := made_by sock;
         current := {| start := now w; construction := now w + 1000 |} |}
      :: reconnects w.
Proof.
  intros Hhook Hws Hl Hr Hh.
  set (w0 := update_socket s (set_readyState CLOSED) w).
  destruct (retry_proceeds (made_by sock) w0 held Hhook Hws)
    as (w2 & Hout & Hnow & Hthis & Hsock & Hrc).
  exists (retry (made_by sock) w0), w2.
  split; [simpl; rewrite Hl; simpl; rewrite Hr, Hh; reflexivity|].
  split; [exact Hout|]. split; [exact Hnow|].
  split; [rewrite Hthis; exact Hws|]. split; [exact Hsock | exact Hrc].
Qed.

Lemma failed_reconnection_retried_witness :
  exists w1 w2,
    step (Socket_error 1 None) reconnecting = Some w1 ∧
    sleep_out 1 w1 = Some w2 ∧
    now w2 = 2005 ∧
    length (sockets w2) = 3%nat.
Proof.
  destruct (failed_reconnection_retried reconnecting 1 0
              {| ws_url := address_of (apiWebsocket (constructor None)) (Some 3);
                 readyState := CONNECTING; handlers := ReconnectingHandlers;
                 made_by := Some {| start := 5; construction := 1005 |} |} None)
    as (w1 & w2 & H1 & H2 & H3 & _ & H4 & _);
    try reflexivity.
  exists w1, w2. split; [exact H1|]. split; [exact H2|]. split; [exact H3|].
  rewrite H4. reflexivity.
Defined.

(** ** Inbound messages *)




(** ** The queries *)

(** X8. A negative timeout imposes no deadline: against any remote end,
    however slow, [getVersion] with a negative timeout never fails with a
    [TimeoutError]; it fails with the [NetworkError] of a refused
    connection, or is decided by the status and the body of the
    response. *)
Theorem getVersion_negative_timeout (parse : string -> option Version)
    (remote : Endpoint) (this : TWNHIICCService) (ms : Z) :
  ms < 0 ->
  getVersion parse (platform_fetch remote) this (Some ms) =
  match remote with
  | Unreachable _ msg => Rejected (NetworkError (Literal msg))
  | Reachable _ st _ txt =>
      if st =? 200
      then match parse txt with
           | Some v => Resolved v
           | None => Rejected (Error (StatusNoBody st))
           end
      else Rejected (Error (StatusAndBody st txt))
  end.
Proof.
  intros Hms. unfold getVersion, fetchWithTimeout. simpl.
  apply Z.leb_gt in Hms. rewrite Hms.
  destruct remote as [t msg|th st tb txt]; simpl; [reflexivity|].
  destruct (st =? 200); simpl; [|reflexivity].
  unfold response_json. simpl. destruct (parse txt); reflexivity.
Qed.

Lemma getVersion_negative_timeout_witness :
  getVersion (fun _ => None) (platform_fetch (Reachable 100000 404 100000 "gone"))
    (constructor None) (Some (-1))
  = Rejected (Error (StatusAndBody 404 "gone")).
Proof.
  apply (getVersion_negative_timeout (fun _ => None)
           (Reachable 100000 404 100000 "gone") (constructor None) (-1)).
  lia.
Defined.

(** X11. Whatever error-shaped value the transport rejects a request
    with, the caller gets an instance of [NetworkError]: the [TimeoutError]
    subclass exactly when the transport rejected with a [DOMException],
    and otherwise a plain [NetworkError], which carries the message of the
    original error when that is an [Error]. *)
Theorem transport_rejection_is_NetworkError {T : Type}
    (JSON_parse : string -> option T)
    (fetch : URL -> RequestInit -> Settled Response)
    (url : URL) (config : RequestInit) (error : Thrown) :
  (forall c, fetch url c = Rejected error) ->
  has_name_and_message error = true ->
  exists e,
    fetchWithTimeout JSON_parse fetch url config = Rejected e ∧
    instanceof_NetworkError e = true ∧
    instanceof_TimeoutError e = instanceof_DOMException error ∧
    match error with
    | ErrorLike true _ m => e = NetworkError (Literal m)
    | _ => True
    end.
Proof.
  intros Hf Hshape. rewrite (fetchWithTimeout_rejected JSON_parse fetch url config error Hf).
  rewrite Hshape.
  destruct error as [n m|[] n m|d|m|m|m]; simpl; eexists;
    (split; [reflexivity|]); repeat split.
Qed.

Lemma transport_rejection_is_NetworkError_witness :
  fetchWithTimeout (fun _ => Some tt)
    (fun _ _ => Rejected (ErrorLike true "TypeError" "fetch failed"))
    default_urlPrefix {| signal := None; timeout := Some 5000 |}
  = Rejected (NetworkError (Literal "fetch failed")).
Proof.
  destruct (transport_rejection_is_NetworkError (fun _ => Some tt)
              (fun _ _ => Rejected (ErrorLike true "TypeError" "fetch failed"))
              default_urlPrefix {| signal := None; timeout := Some 5000 |}
              (ErrorLike true "TypeError" "fetch failed")
              (fun _ => eq_refl) eq_refl)
    as (e & Hres & _ & _ & He).
  rewrite Hres, He. reflexivity.
Defined.





(** ** Opening *)

(** X17. When the first connection of an [openWebSocket] is established,
    the promise of the call resolves and the socket becomes the socket the
    channel holds, whatever it held before: the channel is [Open] and
    [isWebSocketRunning] is [true].  No other socket is touched; a socket
    that was held before is not closed. *)
Theorem first_connection_opens (w : World) (s : nat) (sock : WebSocket) :
  sockets w !! s = Some sock ->
  readyState sock = CONNECTING ->
  handlers sock = OpeningHandlers ->
  exists w',
    step (Socket_open s) w = Some w' ∧
    webSocket (this w') = Some s ∧
    isWebSocketRunning w' = true ∧
    connectionState w' = Open ∧
    output w' = openWebSocket_resolved s :: output w ∧
    sockets w' !! s = Some (opened sock) ∧
    (forall s', s' <> s -> sockets w' !! s' = sockets w !! s') ∧
    retries w' = retries w ∧
    webSocketInterval (this w') = webSocketInterval (this w).
Proof.
  intros Hl Hr Hh.
  exists (set_webSocket (Some s)
            (emit (openWebSocket_resolved s) (update_socket s opened w))).
  split; [simpl; rewrite Hl; simpl; rewrite Hr, Hh; reflexivity|].
  assert (Hnew : alter opened s (sockets w) !! s = Some (opened sock))
    by (rewrite list_lookup_alter_eq, Hl; reflexivity).
  split; [reflexivity|]. split; [reflexivity|].
  split; [unfold connectionState; simpl; rewrite Hnew; reflexivity|].
  split; [reflexivity|]. split; [exact Hnew|].
  split; [|split; reflexivity].
  intros s' Hne. simpl. apply list_lookup_alter_ne. auto.
Qed.

Lemma first_connection_opens_witness :
  exists w',
    step (Socket_open 0) just_called = Some w' ∧
    isWebSocketRunning w' = true ∧ connectionState w' = Open.
Proof.
  destruct (first_connection_opens just_called 0
              {| ws_url := address_of (apiWebsocket (constructor None)) (Some 3);
                 readyState := CONNECTING; handlers := OpeningHandlers;
                 made_by := None |})
    as (w' & H1 & _ & H2 & H3 & _); try reflexivity.
  exists w'. split; [exact H1|]. split; [exact H2 | exact H3].
Defined.

(** X18. When the connection of a live socket is lost while the channel
    holds a socket and a retry hook is registered, the hook is called,
    once, and nothing else happens until it settles: no socket is
    constructed, the handle stays, and the start of the attempt is
    recorded as the clock at the loss. *)
Theorem drop_consults_hook (w : World) (s held : nat) (sock : WebSocket)
    (h : Hook) :
  onWebSocketRetry (this w) = Some h ->
  webSocket (this w) = Some held ->
  sockets w !! s = Some sock ->
  readyState sock = OPEN ∨ readyState sock = CLOSING ->
  handlers sock = LiveHandlers ->
  exists w',
    step (Socket_close s) w = Some w' ∧
    output w' = retry_hook_called h :: output w ∧
    retries w' = retries w ++ [{| t := now w; suspended := AwaitingHook;
                                  follows := made_by sock |}] ∧
    sockets w' = alter (set_readyState CLOSED) s (sockets w) ∧
    this w' = this w ∧
    reconnects w' = reconnects w.
Proof.
  intros Hhook Hws Hl Hr Hh.
  eexists. split.
  - simpl. rewrite Hl. simpl. unfold onclose, retry.
    destruct Hr as [Hr|Hr]; rewrite Hr, Hh; simpl; rewrite Hws, Hhook;
      reflexivity.
  - repeat split.
Qed.

Lemma drop_consults_hook_witness :
  exists w',
    step (Socket_close 0)
         (set_onWebSocketRetry (Some 7%nat) just_opened) = Some w' ∧
    output w' = [retry_hook_called 7%nat; openWebSocket_resolved 0] ∧
    length (sockets w') = 1%nat.
Proof.
  destruct (drop_consults_hook (set_onWebSocketRetry (Some 7%nat) just_opened)
              0 0
              {| ws_url := address_of (apiWebsocket (constructor None)) (Some 3);
                 readyState := OPEN; handlers := LiveHandlers; made_by := None |}
              7%nat)
    as (w' & H1 & H2 & _ & H3 & _); try reflexivity.
  - left. reflexivity.
  - exists w'. split; [exact H1|]. split; [exact H2|]. rewrite H3. reflexivity.
Defined.
